(** * CIEPS wire objects of [sdk/helper/certutil/cieps.go]

    A shallow embedding of the request and response objects exchanged with
    the Certificate Issuance External Policy Service, of the two methods
    that convert between PEM text and parsed X.509 objects
    ([ParseUserCSR], [MarshalCertificate]), of the parts of Go's
    [bytes], [encoding/base64] and [encoding/pem] packages these methods
    run through, and of the way [encoding/json] writes the two objects,
    with [unicode/utf8] for the strings. *)

From stdpp Require Import gmap strings list fin_maps sorting.
From Stdlib Require Import Strings.Byte NArith ZArith Lia DecimalString.

Local Ltac Zify.zify_post_hook ::= Z.to_euclidean_division_equations.

(** Go's [[]byte] is a [list byte]; Go's [string] is a [string].  The two
    conversions [[]byte(s)] and [string(b)] copy the bytes. *)
Abbreviation bytes_of_string := String.list_byte_of_string.
Abbreviation string_of_bytes := String.string_of_list_byte.

#[global] Instance byte_eq_dec : EqDecision byte := Byte.byte_eq_dec.

(** ** Package [bytes] *)
Module bytes.

(** [bytes.HasPrefix(s, prefix)] *)
Fixpoint HasPrefix (s prefix : list byte) {struct prefix} : bool :=
  match prefix with
  | [] => true
  | p :: prefix' =>
      match s with
      | [] => false
      | c :: s' => bool_decide (c = p) && HasPrefix s' prefix'
      end
  end.

(** [bytes.HasSuffix(s, suffix)]:
    [len(s) >= len(suffix) && Equal(s[len(s)-len(suffix):], suffix)] *)
Definition HasSuffix (s suffix : list byte) : bool :=
  bool_decide (length suffix ≤ length s)
  && bool_decide (drop (length s - length suffix) s = suffix).

(** [bytes.IndexByte(b, c)]: index of the first [c], [None] for -1. *)
Fixpoint IndexByte (b : list byte) (c : byte) : option nat :=
  match b with
  | [] => None
  | x :: b' => if bool_decide (x = c) then Some 0%nat else S <$> IndexByte b' c
  end.

(** [bytes.Index(s, sep)]: index of the first instance of [sep] in [s],
    [None] for -1. *)
Fixpoint Index (s sep : list byte) : option nat :=
  if HasPrefix s sep then Some 0%nat
  else match s with
       | [] => None
       | _ :: s' => S <$> Index s' sep
       end.

(** [bytes.Cut(s, sep)]: [(before, after, found)]; [None] stands for
    [found = false]. *)
Definition Cut (s sep : list byte) : option (list byte * list byte) :=
  match Index s sep with
  | Some i => Some (take i s, drop (i + length sep) s)
  | None => None
  end.

(** [bytes.TrimRight(s, cutset)] for a cutset of single-byte characters:
    drops the trailing bytes of [s] that are in [cutset]. *)
Fixpoint TrimRight (s cutset : list byte) : list byte :=
  match s with
  | [] => []
  | c :: s' =>
      match TrimRight s' cutset with
      | [] => if bool_decide (c ∈ cutset) then [] else [c]
      | t => c :: t
      end
  end.

End bytes.

(** ** Package [encoding/base64], the [StdEncoding] *)
Module base64.
Local Open Scope N_scope.

Definition encodeStd : list byte := Eval cbv in
  bytes_of_string
    "ABCDEFGHIJKLMNOPQRSTUVWXYZabcdefghijklmnopqrstuvwxyz0123456789+/".

(** [StdPadding = '='] *)
Definition StdPadding : byte := x3d.

(** [enc.encode[i]] *)
Definition encode (i : N) : byte := nth (N.to_nat i) encodeStd x00.

(** [enc.decodeMap[c]]: the table is filled with [0xff], then
    [decodeMap[encoder[i]] = i] for the 64 characters of the alphabet. *)
Definition decodeMap (c : byte) : N :=
  match list_find (λ x, x = c) encodeStd with
  | Some (i, _) => N.of_nat i
  | None => 0xff
  end.

(** [uint(b)] and [byte(v)] (which keeps the low eight bits) *)
Definition uint (b : byte) : N := Byte.to_N b.
Definition to_byte (v : N) : byte := default x00 (Byte.of_N (N.land v 0xff)).

(** [Encoding.Encode]: three source bytes become four characters; a
    remainder of one or two bytes is padded with ['=']. *)
Fixpoint Encode (src : list byte) : list byte :=
  match src with
  | [] => []
  | b0 :: b1 :: b2 :: src' =>
      let val := N.lor (N.lor (N.shiftl (uint b0) 16) (N.shiftl (uint b1) 8)) (uint b2) in
      encode (N.land (N.shiftr val 18) 0x3F)
      :: encode (N.land (N.shiftr val 12) 0x3F)
      :: encode (N.land (N.shiftr val 6) 0x3F)
      :: encode (N.land val 0x3F)
      :: Encode src'
  | [b0; b1] =>
      let val := N.lor (N.shiftl (uint b0) 16) (N.shiftl (uint b1) 8) in
      [encode (N.land (N.shiftr val 18) 0x3F);
       encode (N.land (N.shiftr val 12) 0x3F);
       encode (N.land (N.shiftr val 6) 0x3F);
       StdPadding]
  | [b0] =>
      let val := N.shiftl (uint b0) 16 in
      [encode (N.land (N.shiftr val 18) 0x3F);
       encode (N.land (N.shiftr val 12) 0x3F);
       StdPadding; StdPadding]
  end.

Definition isNewline (c : byte) : bool :=
  bool_decide (c = x0a) || bool_decide (c = x0d).

(** [for si < len(src) && (src[si] == '\n' || src[si] == '\r') { si++ }] *)
Fixpoint skipNewlines (src : list byte) : list byte :=
  match src with
  | c :: src' => if isNewline c then skipNewlines src' else src
  | [] => []
  end.

(** The end of [decodeQuantum]: the [dlen] collected 6-bit values in
    [dbuf] (missing ones are zero) give [dlen - 1] bytes. *)
Definition assemble (dbuf : list N) (dlen : nat) : list byte :=
  let d i := nth i dbuf 0 in
  let val := N.lor (N.lor (N.lor (N.shiftl (d 0%nat) 18) (N.shiftl (d 1%nat) 12))
                      (N.shiftl (d 2%nat) 6)) (d 3%nat) in
  take (dlen - 1)
    [to_byte (N.shiftr val 16); to_byte (N.shiftr val 8); to_byte (N.shiftr val 0)].

(** [Encoding.Decode] as the iteration of [decodeQuantum] over [src]:
    [dbuf] holds the 6-bit values collected so far for the current
    quantum ([j = length dbuf]).  [None] stands for a
    [CorruptInputError]. Newlines are skipped wherever they occur. *)
Fixpoint decodeLoop (src : list byte) (dbuf : list N) : option (list byte) :=
  match src with
  | [] =>
      (* len(src) == si: fine between two quanta, corrupt inside one *)
      match dbuf with [] => Some [] | _ => None end
  | c :: src' =>
      let out := decodeMap c in
      if negb (out =? 0xff) then
        if (length dbuf =? 3)%nat
        then (assemble (dbuf ++ [out]) 4 ++.) <$> decodeLoop src' []
        else decodeLoop src' (dbuf ++ [out])
      else if isNewline c then decodeLoop src' dbuf
      else if negb (bool_decide (c = StdPadding)) then None
      else
        (* we have reached the end and there is padding *)
        match length dbuf with
        | 0%nat | 1%nat => None
        | 2%nat =>
            (* "==" is expected, the first "=" is already consumed *)
            match skipNewlines src' with
            | [] => None
            | c2 :: src2 =>
                if negb (bool_decide (c2 = StdPadding)) then None
                else match skipNewlines src2 with
                     | [] => Some (assemble dbuf 2)
                     | _ :: _ => None (* trailing garbage *)
                     end
            end
        | _ =>
            match skipNewlines src' with
            | [] => Some (assemble dbuf (length dbuf))
            | _ :: _ => None (* trailing garbage *)
            end
        end
  end.

Definition Decode (src : list byte) : option (list byte) := decodeLoop src [].

End base64.

(** ** [unicode/utf8] *)
Module utf8.

Definition RuneError : N := 0xFFFD.
Definition RuneSelf : N := 0x80.
Definition UTFMax : nat := 4.

Definition maskx : N := 0x3F.
Definition mask2 : N := 0x1F.
Definition mask3 : N := 0x0F.
Definition mask4 : N := 0x07.

Definition locb : N := 0x80.
Definition hicb : N := 0xBF.

(** The entries of the table [first]: [xx] for a byte that starts no
    encoding and [as'] for an ASCII byte, both of size 1; for the others
    the size in the low bits and the index into [acceptRanges] in the
    high ones. *)
Definition xx : N := 0xF1.
Definition as' : N := 0xF0.
Definition s1 : N := 0x02.
Definition s2 : N := 0x13.
Definition s3 : N := 0x03.
Definition s4 : N := 0x23.
Definition s5 : N := 0x34.
Definition s6 : N := 0x04.
Definition s7 : N := 0x44.

Definition first (b : byte) : N :=
  let c := Byte.to_N b in
  if N.ltb c 0x80 then as'
  else if N.ltb c 0xC2 then xx
  else if N.ltb c 0xE0 then s1
  else if N.eqb c 0xE0 then s2
  else if N.ltb c 0xED then s3
  else if N.eqb c 0xED then s4
  else if N.ltb c 0xF0 then s3
  else if N.eqb c 0xF0 then s5
  else if N.ltb c 0xF4 then s6
  else if N.eqb c 0xF4 then s7
  else xx.

(** The range of the second byte of an encoding. *)
Definition acceptRanges (i : N) : N * N :=
  match i with
  | 0 => (locb, hicb)
  | 1 => (0xA0, hicb)
  | 2 => (locb, 0x9F)
  | 3 => (0x90, hicb)
  | 4 => (locb, 0x8F)
  | _ => (0, 0)
  end%N.

(** [DecodeRuneInString(s)]: the first rune of [p] and the number of its
    bytes; [(RuneError, 1)] for an encoding that is not valid. *)
Definition DecodeRuneInString (p : list byte) : N * nat :=
  match p with
  | [] => (RuneError, 0)
  | p0 :: t0 =>
      let x := first p0 in
      if N.leb as' x then ((if N.eqb x xx then RuneError else Byte.to_N p0), 1)
      else
        let sz := N.to_nat (N.land x 7) in
        let accept := acceptRanges (N.shiftr x 4) in
        if Nat.ltb (length p) sz then (RuneError, 1)
        else
          match t0 with
          | [] => (RuneError, 1)
          | p1 :: t1 =>
              let c0 := Byte.to_N p0 in
              let c1 := Byte.to_N p1 in
              if N.ltb c1 accept.1 || N.ltb accept.2 c1 then (RuneError, 1)
              else if Nat.leb sz 2
              then (N.lor (N.shiftl (N.land c0 mask2) 6) (N.land c1 maskx), 2)
              else
                match t1 with
                | [] => (RuneError, 1)
                | p2 :: t2 =>
                    let c2 := Byte.to_N p2 in
                    if N.ltb c2 locb || N.ltb hicb c2 then (RuneError, 1)
                    else if Nat.leb sz 3
                    then (N.lor (N.lor (N.shiftl (N.land c0 mask3) 12)
                                       (N.shiftl (N.land c1 maskx) 6))
                                (N.land c2 maskx), 3)
                    else
                      match t2 with
                      | [] => (RuneError, 1)
                      | p3 :: _ =>
                          let c3 := Byte.to_N p3 in
                          if N.ltb c3 locb || N.ltb hicb c3 then (RuneError, 1)
                          else (N.lor (N.lor (N.lor (N.shiftl (N.land c0 mask4) 18)
                                                    (N.shiftl (N.land c1 maskx) 12))
                                             (N.shiftl (N.land c2 maskx) 6))
                                      (N.land c3 maskx), 4)
                      end
                end
          end
  end.

End utf8.

(** Go's [error] values are identified with their message. *)
Definition error : Type := string.

(** ** JSON texts

    The tree of a JSON text as a decoder reads it: the members of an
    object in the order of the text, duplicates kept; a number as its
    literal. *)
#[warnings="-register-all"]
Inductive json :=
| JNull
| JBool (b : bool)
| JNumber (n : string)
| JString (s : string)
| JArray (l : list json)
| JObject (members : list (string * json)).

(** ** What is used but not modelled

    [bytes.TrimSpace] (Unicode white space), the two [crypto/x509] structs
    and the ASN.1 parser [x509.ParseCertificateRequest] of Go's library,
    and the struct [URLEntries], which another file of the package
    declares, are taken as they come: everything below holds for any
    implementation of them. *)
Class GoExtern := {
  (** [bytes.TrimSpace] *)
  TrimSpace : list byte → list byte;
  (** [x509.CertificateRequest] *)
  x509_CertificateRequest : Type;
  (** [x509.Certificate] and its field [Raw], the complete ASN.1 DER
      content; the other fields are not read in this package. *)
  x509_Certificate : Type;
  Raw : x509_Certificate → list byte;
  (** [x509.ParseCertificateRequest(asn1Data)] and
      [x509.ParseCertificate(der)] *)
  ParseCertificateRequest : list byte → x509_CertificateRequest + error;
  ParseCertificate : list byte → x509_Certificate + error;
  (** [certutil.URLEntries] and its JSON form; decoding is given the
      [*URLEntries] that the field holds and returns what it holds
      afterwards. *)
  URLEntries : Type;
  marshalURLEntries : URLEntries → json;
  unmarshalURLEntries : json → option URLEntries → option URLEntries * option error;
}.

(** ** Package [encoding/pem] (as of Go 1.21) *)
Module pem.

(** [type Block struct { Type string; Headers map[string]string; Bytes []byte }];
    the field [Type] is [Type_] here. *)
Record Block := {
  Type_ : string;
  Headers : gmap string string;
  Bytes : list byte;
}.

Definition nl : list byte := [x0a].
Definition pemStart : list byte := Eval cbv in x0a :: bytes_of_string "-----BEGIN ".
Definition pemEnd : list byte := Eval cbv in x0a :: bytes_of_string "-----END ".
Definition pemEndOfLine : list byte := Eval cbv in bytes_of_string "-----".
Definition colon : list byte := Eval cbv in bytes_of_string ":".
Definition pemLineLength : nat := 64.

(** [getLine]: the first [\r\n] or [\n] delineated line of [data], without
    trailing white space, and the remainder after the new line. *)
Definition getLine (data : list byte) : list byte * list byte :=
  match bytes.IndexByte data x0a with
  | None => (bytes.TrimRight data [x20; x09], [])
  | Some i =>
      let j := i + 1 in
      let i := if bool_decide (0 < i) && bool_decide (data !! (i - 1) = Some x0d)
               then i - 1 else i in
      (bytes.TrimRight (take i data) [x20; x09], drop j data)
  end.

(** [removeSpacesAndTabs] *)
Definition removeSpacesAndTabs (data : list byte) : list byte :=
  filter (λ b, ¬ (b = x20 ∨ b = x09)) data.

(** The start of the next candidate block: [rest] after the first
    ["-----BEGIN "], which needs no new line before it at the very
    beginning of the input. *)
Definition findStart (rest : list byte) : option (list byte) :=
  if bytes.HasPrefix rest (tail pemStart)
  then Some (drop (length pemStart - 1) rest)
  else snd <$> bytes.Cut rest pemStart.

(** The second half of a turn of the loop of [Decode], from the search
    of the END line on; [None] is a [continue]. *)
Definition decodeBlock (typeLine : list byte) (headers : gmap string string)
    (rest : list byte) : option (Block * list byte) :=
  (* if there were no headers, the END line might occur immediately,
     without a leading newline *)
  let ends :=
    if bool_decide (size headers = 0) && bytes.HasPrefix rest (tail pemEnd)
    then Some (0, length pemEnd - 1)
    else (λ i, (i, i + length pemEnd)) <$> bytes.Index rest pemEnd in
  match ends with
  | None => None
  | Some (endIndex, endTrailerIndex) =>
      (* after the dashes of the ending line there should be the same
         type and then a final five dashes *)
      let endTrailer := drop endTrailerIndex rest in
      let endTrailerLen := length typeLine + length pemEndOfLine in
      if bool_decide (length endTrailer < endTrailerLen) then None
      else
        let restOfEndLine := drop endTrailerLen endTrailer in
        let endTrailer := take endTrailerLen endTrailer in
        if negb (bytes.HasPrefix endTrailer typeLine)
           || negb (bytes.HasSuffix endTrailer pemEndOfLine)
        then None
        else if negb (bool_decide (length (getLine restOfEndLine).1 = 0)) then None
        else
          let base64Data := removeSpacesAndTabs (take endIndex rest) in
          match base64.Decode base64Data with
          | None => None
          | Some b =>
              Some ({| Type_ := string_of_bytes typeLine;
                       Headers := headers;
                       Bytes := b |},
                    (getLine (drop (endIndex + length pemEnd - 1) rest)).2)
          end
  end.

Section decode.
Context `{GoExtern}.

(** The inner loop of [Decode] that reads the [key: value] header lines.
    [None] is its [return nil, data] (the input ends inside the headers);
    otherwise the headers and the input from the first line without a
    colon on.  Every turn shortens [rest], so [length rest] turns are
    enough (lemma [readHeaders_fuel]). *)
Fixpoint readHeaders (fuel : nat) (rest : list byte) (headers : gmap string string)
  : option (gmap string string * list byte) :=
  if bool_decide (length rest = 0) then None
  else
    let '(line, next) := getLine rest in
    match bytes.Cut line colon with
    | None => Some (headers, rest)
    | Some (key, val) =>
        match fuel with
        | 0 => None
        | S fuel' =>
            readHeaders fuel' next
              (<[string_of_bytes (TrimSpace key) := string_of_bytes (TrimSpace val)]> headers)
        end
    end.

(** The [for] loop of [Decode]; a recursive call is a [continue]. Every
    turn shortens [rest], so [length rest + 1] turns are enough (lemma
    [decodeLoop_fuel]). *)
Fixpoint decodeLoop (fuel : nat) (data rest : list byte) : option Block * list byte :=
  match fuel with
  | 0 => (None, data)
  | S fuel' =>
      match findStart rest with
      | None => (None, data)
      | Some rest =>
          let '(typeLine, rest) := getLine rest in
          if negb (bytes.HasSuffix typeLine pemEndOfLine)
          then decodeLoop fuel' data rest
          else
            let typeLine := take (length typeLine - length pemEndOfLine) typeLine in
            match readHeaders (length rest) rest ∅ with
            | None => (None, data)
            | Some (headers, rest) =>
                match decodeBlock typeLine headers rest with
                | None => decodeLoop fuel' data rest
                | Some (p, rest) => (Some p, rest)
                end
            end
      end
  end.

(** [pem.Decode(data)]: the next PEM block of the input and the remainder;
    [(None, data)] when no PEM data is found. *)
Definition Decode (data : list byte) : option Block * list byte :=
  decodeLoop (S (length data)) data data.

End decode.

(** [lineBreaker]: the writer that [Encode] puts behind the base64
    encoder.  [used] is the number of bytes of the current line; a byte
    that completes a line of [pemLineLength] is followed by a new line,
    and [Close] ends a line that was begun. *)
Fixpoint lineBreaker (used : nat) (b : list byte) : list byte :=
  match b with
  | [] => if bool_decide (0 < used) then nl else []
  | c :: b' =>
      if bool_decide (used + 1 < pemLineLength)
      then c :: lineBreaker (used + 1) b'
      else c :: nl ++ lineBreaker 0 b'
  end.

(** [writeHeader(out, k, v)] writes [k + ": " + v + "\n"]. *)
Definition writeHeader (k v : string) : list byte :=
  bytes_of_string k ++ [x3a; x20] ++ bytes_of_string v ++ nl.

Definition procType : string := "Proc-Type".

(** The order of [slices.Sort] on strings: byte-wise lexicographic. *)
Definition string_le (x y : string) : Prop := String.leb x y = true.

#[global] Instance string_le_dec x y : Decision (string_le x y) :=
  decide (String.leb x y = true).

(** The header lines of [Encode]: [Proc-Type] first, the other keys
    sorted, and a blank line after them; nothing for a block
    without headers. *)
Definition encodeHeaders (headers : gmap string string) : list byte :=
  if bool_decide (0 < size headers) then
    let h := filter (λ k, k ≠ procType) (map_to_list headers).*1 in
    let first := match headers !! procType with
                 | Some v => writeHeader procType v
                 | None => []
                 end in
    let sorted := merge_sort string_le h in
    first
    ++ mjoin ((λ k, writeHeader k (default "" (headers !! k))) <$> sorted)
    ++ nl
  else [].

(** [pem.Encode] into a buffer; [None] is its one error, a header key that
    contains a colon. *)
Definition Encode (b : Block) : option (list byte) :=
  if bool_decide (Exists (λ k, x3a ∈ bytes_of_string k) (map_to_list (Headers b)).*1)
  then None
  else Some (tail pemStart ++ bytes_of_string (Type_ b) ++ pemEndOfLine ++ nl
             ++ encodeHeaders (Headers b)
             ++ lineBreaker 0 (base64.Encode (Bytes b))
             ++ tail pemEnd ++ bytes_of_string (Type_ b) ++ pemEndOfLine ++ nl).

(** [pem.EncodeToMemory]: [nil] when [Encode] fails. *)
Definition EncodeToMemory (b : Block) : list byte :=
  match Encode b with
  | Some out => out
  | None => []
  end.

End pem.

(** ** Package [certutil], file [cieps.go] *)

(** What a Go [interface{}] of the request maps holds: the dynamic types
    that decoding a request produces. *)
#[warnings="-register-all"]
Inductive value :=
| VNil
| VBool (b : bool)
| VInt (n : Z)
| VNumber (s : string)
| VString (s : string)
| VSlice (l : list value)
| VMap (m : gmap string value).

(** The [%T] verb of [fmt]: the Go syntax of the dynamic type. *)
Definition typeName (v : value) : string :=
  match v with
  | VNil => "<nil>"
  | VBool _ => "bool"
  | VInt _ => "int"
  | VNumber _ => "json.Number"
  | VString _ => "string"
  | VSlice _ => "[]interface {}"
  | VMap _ => "map[string]interface {}"
  end.

(** The [%v] verb of [fmt] on an [int] that is a length. *)
Definition formatInt (n : nat) : string := NilEmpty.string_of_uint (Nat.to_uint n).

(** A [map[string]interface{}]; [None] is the [nil] map. *)
Abbreviation kvmap := (option (gmap string value)).

(** [v, present := m[k]]: a [nil] map has no entries. *)
Definition mapIndex (m : kvmap) (k : string) : option value := m ≫= (.!! k).

(** [type CIEPSIssuanceMode string] and its four constants: the source
    of the issuance request. *)
Definition CIEPSIssuanceMode : Type := string.

Definition SignCIEPSMode : CIEPSIssuanceMode := "sign".
Definition IssueCIEPSMode : CIEPSIssuanceMode := "issue".
Definition ACMECIEPSMode : CIEPSIssuanceMode := "acme".
Definition ICACIEPSMode : CIEPSIssuanceMode := "ica".

Section cieps.
Context `{GoExtern}.

(** [type CIEPSIssuanceConfig struct]: the configuration of the issuer
    and of the mount at the time of the request. *)
Record CIEPSIssuanceConfig := {
  AIAValues : option URLEntries;
  LeafNotAfterBehavior : string;
  MountDefaultTTL : string;
  MountMaxTTL : string;
}.

(** [type CIEPSVaultParams struct]: the parameters that Vault sends or
    has validated.  [IsPerfStandby] and [IsPRSecondary] tell the type of
    the node that talks to the service. *)
Record CIEPSVaultParams := {
  PolicyName : string;
  Mount : string;
  Namespace : string;
  IsPerfStandby : bool;
  IsPRSecondary : bool;
  IssuanceMode : CIEPSIssuanceMode;
  GeneratedKey : bool;
  IssuerName : string;
  IssuerID : string;
  IssuerCert : string;
  Config : CIEPSIssuanceConfig;
}.

(** [type CIEPSRequest struct]: the request object that Vault sends to
    the service.  [ParsedCSR] is the ['csr'] entry of [UserRequestKV] in
    parsed form; [None] is the [nil] pointer. *)
Record CIEPSRequest := {
  Version : Z;
  UUID : string;
  Sync : bool;
  UserRequestKV : kvmap;
  IdentityRequestKV : kvmap;
  ACMERequestKV : kvmap;
  VaultRequestKV : CIEPSVaultParams;
  ParsedCSR : option x509_CertificateRequest;
}.

(** [req.ParsedCSR = csr] *)
Definition setParsedCSR (csr : option x509_CertificateRequest) (req : CIEPSRequest)
  : CIEPSRequest :=
  {| Version := Version req; UUID := UUID req; Sync := Sync req;
     UserRequestKV := UserRequestKV req;
     IdentityRequestKV := IdentityRequestKV req;
     ACMERequestKV := ACMERequestKV req;
     VaultRequestKV := VaultRequestKV req;
     ParsedCSR := csr |}.

(** [func (req *CIEPSRequest) ParseUserCSR() error]: the request after the
    call and the returned error ([None] is [nil]). *)
Definition ParseUserCSR (req : CIEPSRequest) : CIEPSRequest * option error :=
  match mapIndex (UserRequestKV req) "csr" with
  | None => (req, Some "missing expected 'csr' attribute on the request")
  | Some csrValueRaw =>
      match csrValueRaw with
      | VString csrValue =>
          if bool_decide (csrValue = "")
          then (req, Some "unexpectedly empty 'csr' attribute on the request")
          else
            let '(block, rest) := pem.Decode (bytes_of_string csrValue) in
            if bool_decide (0 < length rest)
            then (req, Some ("failed to decode 'csr': " +:+ formatInt (length rest)
                             +:+ " bytes of trailing data after PEM block"))
            else
              match block with
              | None => (req, Some "failed to decode 'csr' PEM block")
              | Some block =>
                  match ParseCertificateRequest (pem.Bytes block) with
                  | inr err =>
                      (req, Some ("failed to parse certificate request: " +:+ err))
                  | inl csr => (setParsedCSR (Some csr) req, None)
                  end
              end
      | _ =>
          (req, Some ("unexpected type of 'csr' attribute: " +:+ typeName csrValueRaw))
      end
  end.

(** [type CIEPSResponse struct]: the response object expected from the
    service; the field [UUID] of the Go struct is [UUID'] here, and
    [None] in [ParsedCertificate] is the [nil] pointer. *)
Record CIEPSResponse := {
  UUID' : string;
  Error : string;
  Warnings : list string;
  Certificate : string;
  ParsedCertificate : option x509_Certificate;
  IssuerRef : string;
  StoreCert : bool;
  GenerateLease : bool;
}.

(** [c.Certificate = pem] *)
Definition setCertificate (pem : string) (c : CIEPSResponse) : CIEPSResponse :=
  {| UUID' := UUID' c; Error := Error c; Warnings := Warnings c;
     Certificate := pem;
     ParsedCertificate := ParsedCertificate c;
     IssuerRef := IssuerRef c; StoreCert := StoreCert c;
     GenerateLease := GenerateLease c |}.

(** [func (c *CIEPSResponse) MarshalCertificate() error] *)
Definition MarshalCertificate (c : CIEPSResponse) : CIEPSResponse * option error :=
  match ParsedCertificate c with
  | None => (c, Some "no certificate present")
  | Some cert =>
      if bool_decide (length (Raw cert) = 0)
      then (c, Some "no certificate present")
      else
        let pem := pem.EncodeToMemory
                     {| pem.Type_ := "CERTIFICATE"; pem.Headers := ∅;
                        pem.Bytes := Raw cert |} in
        if bool_decide (length pem = 0)
        then (c, Some "failed to generate PEM: no body")
        else (setCertificate (string_of_bytes pem) c, None)
  end.

End cieps.

(** ** The JSON wire form of the two objects

    The [json:"..."] tags of the struct declarations fix the wire form:
    the member name of every field, [omitempty], and [json:"-"] for a
    field that is no member at all. *)

(** [appendString] of [encoding/json], up to the escapes: the string
    that the text written for [src] denotes.  A byte below [RuneSelf] and
    the bytes of a valid encoding stay as they are, whether written plain
    or escaped; a byte at which no valid encoding starts is written as
    [\ufffd], the three bytes [EF BF BD].  [skip] counts the bytes that
    are left of the encoding under way, by which the index moves on. *)
Fixpoint appendString (skip : nat) (src : list byte) : list byte :=
  match src with
  | [] => []
  | b :: t =>
      match skip with
      | S k => b :: appendString k t
      | O =>
          if N.ltb (Byte.to_N b) utf8.RuneSelf then b :: appendString 0 t
          else
            let '(c, size) := utf8.DecodeRuneInString (take utf8.UTFMax src) in
            if N.eqb c utf8.RuneError && Nat.eqb size 1
            then [xef; xbf; xbd] ++ appendString 0 t
            else b :: appendString (size - 1) t
      end
  end.

(** A Go [string] as the JSON string that is written for it. *)
Definition encodeString (s : string) : string :=
  string_of_bytes (appendString 0 (bytes_of_string s)).

(** The [%d] of an [int] as JSON prints it. *)
Definition formatZ (n : Z) : string := NilZero.string_of_int (Z.to_int n).

(** The integer that a JSON number literal denotes, if it is one. *)
Definition parseZ (n : string) : option Z := Z.of_int <$> NilZero.int_of_string n.

Definition member_le (x y : string * json) : Prop := pem.string_le x.1 y.1.

#[global] Instance member_le_dec x y : Decision (member_le x y) :=
  decide (pem.string_le x.1 y.1).

(** An [interface{}] as JSON; the keys of a map are sorted and then
    written as strings. *)
Fixpoint toJSON (v : value) : json :=
  match v with
  | VNil => JNull
  | VBool b => JBool b
  | VInt n => JNumber (formatZ n)
  | VNumber s => JNumber s
  | VString s => JString (encodeString s)
  | VSlice l => JArray (toJSON <$> l)
  | VMap m =>
      JObject (prod_map encodeString id
                 <$> merge_sort member_le (map_to_list (toJSON <$> m)))
  end.

(** JSON read into an [interface{}]; of two members with one name the
    later one stays. *)
Fixpoint fromJSON (j : json) : value :=
  match j with
  | JNull => VNil
  | JBool b => VBool b
  | JNumber n => VNumber n
  | JString s => VString s
  | JArray l => VSlice (fromJSON <$> l)
  | JObject ms => VMap (list_to_map (reverse (prod_map id fromJSON <$> ms)))
  end.

(** The names of the members, from the tags of [CIEPSRequest] and of
    [CIEPSResponse]. *)
Definition requestFields : list string :=
  ["request_version"; "request_uuid"; "synchronous"; "user_request_key_values";
   "identity_request_key_values"; "acme_request_key_values"; "vault_request_values"].

Definition responseFields : list string :=
  ["request_uuid"; "error"; "warnings"; "certificate"; "issuer_ref";
   "store_certificate"; "generate_lease"].

Definition vaultParamsFields : list string :=
  ["policy_name"; "mount"; "ns"; "vault_is_performance_standby";
   "vault_is_performance_secondary"; "issuance_mode"; "vault_generated_private_key";
   "requested_issuer_name"; "requested_issuer_id"; "requested_issuer_cert";
   "requested_issuance_config"].

Definition issuanceConfigFields : list string :=
  ["aia_values"; "leaf_not_after_behavior"; "mount_default_ttl"; "mount_max_ttl"].

Section wire.
Context `{GoExtern}.

(** *** Encoding *)

Definition marshalMap (m : kvmap) : json :=
  match m with
  | None => JNull
  | Some m => toJSON (VMap m)
  end.

(** [omitempty] leaves a member out when the field is empty: a map
    without entries, a slice without elements, the empty string. *)
Definition omitEmptyMap (name : string) (m : kvmap) : list (string * json) :=
  if bool_decide (size (default ∅ m) = 0) then [] else [(name, marshalMap m)].

Definition omitEmptyString (name : string) (s : string) : list (string * json) :=
  if bool_decide (s = "") then [] else [(name, JString (encodeString s))].

Definition marshalIssuanceConfig (c : CIEPSIssuanceConfig) : json :=
  JObject
    [("aia_values", from_option marshalURLEntries JNull (AIAValues c));
     ("leaf_not_after_behavior", JString (encodeString (LeafNotAfterBehavior c)));
     ("mount_default_ttl", JString (encodeString (MountDefaultTTL c)));
     ("mount_max_ttl", JString (encodeString (MountMaxTTL c)))].

Definition marshalVaultParams (p : CIEPSVaultParams) : json :=
  JObject
    (omitEmptyString "policy_name" (PolicyName p)
     ++ [("mount", JString (encodeString (Mount p)));
         ("ns", JString (encodeString (Namespace p)));
         ("vault_is_performance_standby", JBool (IsPerfStandby p));
         ("vault_is_performance_secondary", JBool (IsPRSecondary p));
         ("issuance_mode", JString (encodeString (IssuanceMode p)));
         ("vault_generated_private_key", JBool (GeneratedKey p));
         ("requested_issuer_name", JString (encodeString (IssuerName p)));
         ("requested_issuer_id", JString (encodeString (IssuerID p)));
         ("requested_issuer_cert", JString (encodeString (IssuerCert p)));
         ("requested_issuance_config", marshalIssuanceConfig (Config p))]).

(** The members of an encoded [CIEPSRequest]; [ParsedCSR] has the tag
    [json:"-"]. *)
Definition requestMembers (req : CIEPSRequest) : list (string * json) :=
  [("request_version", JNumber (formatZ (Version req)));
   ("request_uuid", JString (encodeString (UUID req)));
   ("synchronous", JBool (Sync req));
   ("user_request_key_values", marshalMap (UserRequestKV req))]
  ++ omitEmptyMap "identity_request_key_values" (IdentityRequestKV req)
  ++ omitEmptyMap "acme_request_key_values" (ACMERequestKV req)
  ++ [("vault_request_values", marshalVaultParams (VaultRequestKV req))].

Definition marshalRequest (req : CIEPSRequest) : json := JObject (requestMembers req).

(** The members of an encoded [CIEPSResponse]; [ParsedCertificate] has
    the tag [json:"-"]. *)
Definition responseMembers (c : CIEPSResponse) : list (string * json) :=
  [("request_uuid", JString (encodeString (UUID' c)))]
  ++ omitEmptyString "error" (Error c)
  ++ (if bool_decide (length (Warnings c) = 0) then []
      else [("warnings", JArray (JString ∘ encodeString <$> Warnings c))])
  ++ [("certificate", JString (encodeString (Certificate c)));
      ("issuer_ref", JString (encodeString (IssuerRef c)));
      ("store_certificate", JBool (StoreCert c));
      ("generate_lease", JBool (GenerateLease c))].

Definition marshalResponse (c : CIEPSResponse) : json := JObject (responseMembers c).

(** *** Decoding

    The decoders of the two objects are not in this file; they are
    written after "External interfaces" of the specification, which lists
    the members of the two bodies and closes the schema of the response. *)

(** Modelled from the spec: the decoders are missing; the kind of a JSON
    value, for the message of a value of the wrong kind. *)
Definition jsonKind (v : json) : string :=
  match v with
  | JNull => "null"
  | JBool _ => "bool"
  | JNumber _ => "number"
  | JString _ => "string"
  | JArray _ => "array"
  | JObject _ => "object"
  end.

(** Modelled from the spec: the decoders are missing; the error of a
    value that does not fit the type of the field. *)
Definition typeError (v : json) (goType : string) : error :=
  "json: cannot unmarshal " +:+ jsonKind v +:+ " into Go value of type " +:+ goType.

(** Modelled from the spec: the decoders are missing.  Decoding a value
    into a field gives what the field holds afterwards and possibly an
    error; [null] and a value of the wrong kind leave a string as it
    is. *)
Definition decodeString (v : json) (old : string) : string * option error :=
  match v with
  | JString s => (s, None)
  | JNull => (old, None)
  | _ => (old, Some (typeError v "string"))
  end.

(** Modelled from the spec: the decoders are missing; a boolean member
    ([synchronous], [store_certificate], [generate_lease]). *)
Definition decodeBool (v : json) (old : bool) : bool * option error :=
  match v with
  | JBool b => (b, None)
  | JNull => (old, None)
  | _ => (old, Some (typeError v "bool"))
  end.

(** Modelled from the spec: the decoders are missing; an integer member
    ([request_version]). *)
Definition decodeInt (v : json) (old : Z) : Z * option error :=
  match v with
  | JNumber n =>
      match parseZ n with
      | Some z => (z, None)
      | None => (old, Some (typeError v "int"))
      end
  | JNull => (old, None)
  | _ => (old, Some (typeError v "int"))
  end.

(** Modelled from the spec: the decoders are missing; of the errors of
    a decoding the first one is returned. *)
Definition firstError (errs : list (option error)) : option error :=
  foldr (λ e acc, match e with Some _ => e | None => acc end) None errs.

(** Modelled from the spec: the decoders are missing; an array of
    strings ([warnings]). *)
Definition decodeStrings (v : json) (old : list string) : list string * option error :=
  match v with
  | JArray l =>
      let elems := (λ e, decodeString e "") <$> l in
      (elems.*1, firstError elems.*2)
  | JNull => ([], None)
  | _ => (old, Some (typeError v "[]string"))
  end.

(** Modelled from the spec: the decoders are missing; an object member
    of a request ([user_request_key_values] and the like) is read into
    the map that the field holds, a new one if it holds none. *)
Definition decodeMap (v : json) (old : kvmap) : kvmap * option error :=
  match v with
  | JObject ms =>
      (Some (list_to_map (reverse (prod_map id fromJSON <$> ms)) ∪ default ∅ old), None)
  | JNull => (None, None)
  | _ => (old, Some (typeError v "map[string]interface {}"))
  end.

(** Modelled from the spec: the decoders are missing; the member
    [aia_values], [null] for no entries. *)
Definition decodeURLEntries (v : json) (old : option URLEntries)
  : option URLEntries * option error :=
  match v with
  | JNull => (None, None)
  | _ => unmarshalURLEntries v old
  end.

(** Modelled from the spec: the decoders are missing.  The member [key]
    is decoded with [dec] if it is the member [name] of the field, and
    leaves the field alone otherwise. *)
Definition field {A : Type} (key name : string)
    (dec : json → A → A * option error) (v : json) (old : A) : A * option error :=
  if bool_decide (key = name) then dec v old else (old, None).

(** Modelled from the spec: the decoders are missing; the error
    "unknown response field", with the name of the member. *)
Definition unknownField (key : string) : error := "json: unknown field " +:+ key.

(** Modelled from the spec: the decoders are missing.  A member whose
    name is not in the list of the body is skipped, or is an error for a
    closed schema. *)
Definition checkKnown (strict : bool) (fields : list string) (key : string) : option error :=
  if strict && negb (bool_decide (key ∈ fields)) then Some (unknownField key) else None.

(** Modelled from the spec: the decoders are missing.  The members of
    an object are decoded one after the other into the struct [s];
    decoding goes on after an error. *)
Definition decodeMembers {S : Type} (step : string → json → S → S * option error)
    (members : list (string * json)) (s : S) : S * option error :=
  foldl (λ acc kv,
           let '(s', e) := step kv.1 kv.2 acc.1 in
           (s', firstError [acc.2; e]))
        (s, None) members.

(** Modelled from the spec: the decoders are missing; a struct is
    decoded from an object, [null] leaves it as it is. *)
Definition decodeStruct {S : Type} (goType : string)
    (step : string → json → S → S * option error) (v : json) (s : S) : S * option error :=
  match v with
  | JObject members => decodeMembers step members s
  | JNull => (s, None)
  | _ => (s, Some (typeError v goType))
  end.

(** Modelled from the spec: the decoders are missing; one member of
    [requested_issuance_config]. *)
Definition issuanceConfigMember (strict : bool) (key : string) (v : json)
    (c : CIEPSIssuanceConfig) : CIEPSIssuanceConfig * option error :=
  let aia := field key "aia_values" decodeURLEntries v (AIAValues c) in
  let behavior := field key "leaf_not_after_behavior" decodeString v (LeafNotAfterBehavior c) in
  let defaultTTL := field key "mount_default_ttl" decodeString v (MountDefaultTTL c) in
  let maxTTL := field key "mount_max_ttl" decodeString v (MountMaxTTL c) in
  ({| AIAValues := aia.1; LeafNotAfterBehavior := behavior.1;
      MountDefaultTTL := defaultTTL.1; MountMaxTTL := maxTTL.1 |},
   firstError [checkKnown strict issuanceConfigFields key;
               aia.2; behavior.2; defaultTTL.2; maxTTL.2]).

(** Modelled from the spec: the decoders are missing; one member of
    [vault_request_values]. *)
Definition vaultParamsMember (strict : bool) (key : string) (v : json)
    (p : CIEPSVaultParams) : CIEPSVaultParams * option error :=
  let policy := field key "policy_name" decodeString v (PolicyName p) in
  let mount := field key "mount" decodeString v (Mount p) in
  let ns := field key "ns" decodeString v (Namespace p) in
  let standby := field key "vault_is_performance_standby" decodeBool v (IsPerfStandby p) in
  let secondary := field key "vault_is_performance_secondary" decodeBool v (IsPRSecondary p) in
  let mode := field key "issuance_mode" decodeString v (IssuanceMode p) in
  let generated := field key "vault_generated_private_key" decodeBool v (GeneratedKey p) in
  let issuerName := field key "requested_issuer_name" decodeString v (IssuerName p) in
  let issuerID := field key "requested_issuer_id" decodeString v (IssuerID p) in
  let issuerCert := field key "requested_issuer_cert" decodeString v (IssuerCert p) in
  let config := field key "requested_issuance_config"
                  (decodeStruct "certutil.CIEPSIssuanceConfig" (issuanceConfigMember strict))
                  v (Config p) in
  ({| PolicyName := policy.1; Mount := mount.1; Namespace := ns.1;
      IsPerfStandby := standby.1; IsPRSecondary := secondary.1;
      IssuanceMode := mode.1; GeneratedKey := generated.1;
      IssuerName := issuerName.1; IssuerID := issuerID.1; IssuerCert := issuerCert.1;
      Config := config.1 |},
   firstError [checkKnown strict vaultParamsFields key;
               policy.2; mount.2; ns.2; standby.2; secondary.2; mode.2; generated.2;
               issuerName.2; issuerID.2; issuerCert.2; config.2]).

(** Modelled from the spec: the decoders are missing; one member of a
    request.  No member name leads to [ParsedCSR], whose tag is
    [json:"-"]. *)
Definition requestMember (strict : bool) (key : string) (v : json)
    (req : CIEPSRequest) : CIEPSRequest * option error :=
  let version := field key "request_version" decodeInt v (Version req) in
  let uuid := field key "request_uuid" decodeString v (UUID req) in
  let sync := field key "synchronous" decodeBool v (Sync req) in
  let user := field key "user_request_key_values" decodeMap v (UserRequestKV req) in
  let identity := field key "identity_request_key_values" decodeMap v (IdentityRequestKV req) in
  let acme := field key "acme_request_key_values" decodeMap v (ACMERequestKV req) in
  let vault := field key "vault_request_values"
                 (decodeStruct "certutil.CIEPSVaultParams" (vaultParamsMember strict))
                 v (VaultRequestKV req) in
  ({| Version := version.1; UUID := uuid.1; Sync := sync.1;
      UserRequestKV := user.1; IdentityRequestKV := identity.1;
      ACMERequestKV := acme.1; VaultRequestKV := vault.1;
      ParsedCSR := ParsedCSR req |},
   firstError [checkKnown strict requestFields key;
               version.2; uuid.2; sync.2; user.2; identity.2; acme.2; vault.2]).

(** Modelled from the spec: the decoders are missing; one member of a
    response.  No member name leads to [ParsedCertificate], whose tag is
    [json:"-"]. *)
Definition responseMember (strict : bool) (key : string) (v : json)
    (c : CIEPSResponse) : CIEPSResponse * option error :=
  let uuid := field key "request_uuid" decodeString v (UUID' c) in
  let err := field key "error" decodeString v (Error c) in
  let warnings := field key "warnings" decodeStrings v (Warnings c) in
  let certificate := field key "certificate" decodeString v (Certificate c) in
  let issuerRef := field key "issuer_ref" decodeString v (IssuerRef c) in
  let store := field key "store_certificate" decodeBool v (StoreCert c) in
  let lease := field key "generate_lease" decodeBool v (GenerateLease c) in
  ({| UUID' := uuid.1; Error := err.1; Warnings := warnings.1;
      Certificate := certificate.1;
      ParsedCertificate := ParsedCertificate c;
      IssuerRef := issuerRef.1; StoreCert := store.1; GenerateLease := lease.1 |},
   firstError [checkKnown strict responseFields key;
               uuid.2; err.2; warnings.2; certificate.2; issuerRef.2; store.2; lease.2]).

(** Modelled from the spec: the decoder of a request is not in this
    file.  "Request body fields" lists the members; a request is read
    into the struct [req], and a member that is not listed is skipped. *)
Definition unmarshalRequest (v : json) (req : CIEPSRequest) : CIEPSRequest * option error :=
  decodeStruct "certutil.CIEPSRequest" (requestMember false) v req.

(** Modelled from the spec: the decoder of a response is not in this
    file.  "Decoding must reject any field not in this list": the
    response is read into the struct [c] with a closed schema, a member
    that is not listed is an error. *)
Definition unmarshalResponse (v : json) (c : CIEPSResponse) : CIEPSResponse * option error :=
  decodeStruct "certutil.CIEPSResponse" (responseMember true) v c.

(** The zero values of the structs, from which a decoder starts. *)
Definition zeroIssuanceConfig : CIEPSIssuanceConfig :=
  {| AIAValues := None; LeafNotAfterBehavior := ""; MountDefaultTTL := "";
     MountMaxTTL := "" |}.

Definition zeroVaultParams : CIEPSVaultParams :=
  {| PolicyName := ""; Mount := ""; Namespace := ""; IsPerfStandby := false;
     IsPRSecondary := false; IssuanceMode := ""; GeneratedKey := false;
     IssuerName := ""; IssuerID := ""; IssuerCert := "";
     Config := zeroIssuanceConfig |}.

Definition zeroRequest : CIEPSRequest :=
  {| Version := 0; UUID := ""; Sync := false; UserRequestKV := None;
     IdentityRequestKV := None; ACMERequestKV := None;
     VaultRequestKV := zeroVaultParams; ParsedCSR := None |}.

Definition zeroResponse : CIEPSResponse :=
  {| UUID' := ""; Error := ""; Warnings := []; Certificate := "";
     ParsedCertificate := None; IssuerRef := ""; StoreCert := false;
     GenerateLease := false |}.

(** Modelled from the spec: the decoder of a request is missing; a
    request decoded from a JSON text into a fresh struct. *)
Definition decodeRequest (v : json) : CIEPSRequest * option error :=
  unmarshalRequest v zeroRequest.

(** Modelled from the spec: the decoder of a response is missing; a
    response decoded from a JSON text into a fresh struct. *)
Definition decodeResponse (v : json) : CIEPSResponse * option error :=
  unmarshalResponse v zeroResponse.

End wire.

(** ** Dispatch by cluster role and the handling of the outcome

    The dispatcher and the outcome handler are not in this file; the
    comment on [IsPerfStandby] in [CIEPSVaultParams] describes what they
    do with the two flags. *)
Section dispatch.
Context `{GoExtern}.

(** Modelled from the spec: the two nodes of "Topology-Aware
    Dispatcher", the performance standby that takes the call and the
    active node of its cluster. *)
Inductive node := Standby | Active.

(** Modelled from the spec: what an issuance does that can be observed:
    a request sent to the external service from a node, the operation
    forwarded to the active node under a request ID, a certificate signed
    with the keys of the CA, a certificate stored under issuer and request
    ID, a lease created. *)
Inductive event :=
| SendToService (n : node) (req : CIEPSRequest)
| ForwardToActive (requestID : string)
| SignCertificate (n : node) (certificate : string)
| StoreCertificate (n : node) (issuerRef requestID : string)
| CreateLease (n : node) (requestID : string).

(** Modelled from the spec: "On success, the caller receives the PEM
    certificate, issuerRef, and any warnings"; a failure carries the
    message and the warnings. *)
Inductive outcome :=
| Issued (certificate issuerRef : string) (warnings : list string)
| Failed (e : error) (warnings : list string).

(** Modelled from the spec: "certificateText must successfully decode to
    a well-formed certificate or the issuance fails with a decode
    error". *)
Definition decodeCertificate (certificateText : string) : x509_Certificate + error :=
  match pem.Decode (bytes_of_string certificateText) with
  | (Some block, _) => ParseCertificate (pem.Bytes block)
  | (None, _) => inr "failed to decode the certificate PEM block"
  end.

(** Modelled from the spec: "Outcome Handler".  A response with an error
    fails the issuance, its warnings are passed on; otherwise the
    certificate must decode, it is signed on this node, stored when
    [storeCertificate] is set and leased when [generateLease] is set. *)
Definition handleResponse (n : node) (req : CIEPSRequest) (resp : CIEPSResponse)
  : list event * outcome :=
  if negb (bool_decide (Error resp = ""))
  then ([], Failed (Error resp) (Warnings resp))
  else
    match decodeCertificate (Certificate resp) with
    | inr e => ([], Failed e (Warnings resp))
    | inl _ =>
        ([SignCertificate n (Certificate resp)]
         ++ (if StoreCert resp then [StoreCertificate n (IssuerRef resp) (UUID req)] else [])
         ++ (if GenerateLease resp then [CreateLease n (UUID req)] else []),
         Issued (Certificate resp) (IssuerRef resp) (Warnings resp))
    end.

(** [req.VaultRequestKV.IsPerfStandby = b] *)
Definition setIsPerfStandby (b : bool) (req : CIEPSRequest) : CIEPSRequest :=
  let p := VaultRequestKV req in
  {| Version := Version req; UUID := UUID req; Sync := Sync req;
     UserRequestKV := UserRequestKV req;
     IdentityRequestKV := IdentityRequestKV req;
     ACMERequestKV := ACMERequestKV req;
     VaultRequestKV :=
       {| PolicyName := PolicyName p; Mount := Mount p; Namespace := Namespace p;
          IsPerfStandby := b; IsPRSecondary := IsPRSecondary p;
          IssuanceMode := IssuanceMode p; GeneratedKey := GeneratedKey p;
          IssuerName := IssuerName p; IssuerID := IssuerID p;
          IssuerCert := IssuerCert p; Config := Config p |};
     ParsedCSR := ParsedCSR req |}.

(** The reply of the external service to a request that a node sends. *)
Context (service : node → CIEPSRequest → CIEPSResponse).

(** Modelled from the spec: routing rules 2 and 3, the node issues and
    stores with the response it gets. *)
Definition issueLocally (n : node) (req : CIEPSRequest) : list event * outcome :=
  let resp := service n req in
  let '(events, result) := handleResponse n req resp in
  (SendToService n req :: events, result).

(** Modelled from the spec: routing rule 1.  A performance standby
    sends the request to the external service; when the response sets
    [storeCertificate], the operation goes to the active node, which
    sends the full request again under the same request ID, and the
    response that the standby got is dropped. *)
Definition issue (req : CIEPSRequest) : list event * outcome :=
  if IsPerfStandby (VaultRequestKV req) then
    let resp := service Standby req in
    if StoreCert resp then
      let '(events, result) := issueLocally Active (setIsPerfStandby false req) in
      (SendToService Standby req :: ForwardToActive (UUID req) :: events, result)
    else
      let '(events, result) := handleResponse Standby req resp in
      (SendToService Standby req :: events, result)
  else issueLocally Active req.

End dispatch.

(** ** Vocabulary of the proofs *)

(** The four 6-bit values of the 24-bit group [b0 b1 b2]. *)
Definition sextets (b0 b1 b2 : byte) : list N :=
  [(base64.uint b0 / 4)%N;
   ((base64.uint b0 mod 4) * 16 + base64.uint b1 / 16)%N;
   ((base64.uint b1 mod 16) * 4 + base64.uint b2 / 64)%N;
   (base64.uint b2 mod 64)%N].

(** The characters that [base64.Encode] writes. *)
Definition b64char (c : byte) : bool :=
  bool_decide (c ∈ base64.encodeStd) || bool_decide (c = base64.StdPadding).

Definition dropNewlines (s : list byte) : list byte :=
  filter (λ c, base64.isNewline c = false) s.

(** [c.ParsedCertificate = cert], what a caller does with a certificate
    that it parsed or issued. *)
Definition setParsedCertificate `{GoExtern} (cert : option x509_Certificate)
    (c : CIEPSResponse) : CIEPSResponse :=
  {| UUID' := UUID' c; Error := Error c; Warnings := Warnings c;
     Certificate := Certificate c;
     ParsedCertificate := cert;
     IssuerRef := IssuerRef c; StoreCert := StoreCert c;
     GenerateLease := GenerateLease c |}.

(** The message of [ParseUserCSR] for [n] bytes after the PEM block. *)
Definition trailingDataError (n : nat) : error :=
  "failed to decode 'csr': " +:+ formatInt n
  +:+ " bytes of trailing data after PEM block".

(** The PEM text of a certificate with the DER bytes [raw]. *)
Definition certificatePEM (raw : list byte) : list byte :=
  bytes_of_string "-----BEGIN CERTIFICATE-----" ++ [x0a]
  ++ pem.lineBreaker 0 (base64.Encode raw)
  ++ bytes_of_string "-----END CERTIFICATE-----" ++ [x0a].

(** An event is an effect of node [n] on the certificate: signing,
    storing or leasing it. *)
Definition effectOf `{GoExtern} (n : node) (e : event) : Prop :=
  match e with
  | SignCertificate m _ | StoreCertificate m _ _ | CreateLease m _ => m = n
  | SendToService _ _ | ForwardToActive _ => False
  end.

(** The last step of [ParseUserCSR], on the bytes [der] of the block:
    the parsed request is attached, or the error of the parser is
    returned in the message of the method. *)
Definition csrVerdict `{GoExtern} (req : CIEPSRequest) (der : list byte)
  : CIEPSRequest * option error :=
  match ParseCertificateRequest der with
  | inl csr => (setParsedCSR (Some csr) req, None)
  | inr err => (req, Some ("failed to parse certificate request: " +:+ err))
  end.

(** The lengths of the lines of a text, [n] being the length of the
    line that is being read. *)
Fixpoint lineLengths (n : nat) (text : list byte) : list nat :=
  match text with
  | [] => [n]
  | c :: text' =>
      if bool_decide (c = x0a) then n :: lineLengths 0 text'
      else lineLengths (S n) text'
  end.

(** An implementation of what is not modelled, to run the definitions
    on examples: white space is not trimmed, a certificate and a
    certificate request are their DER bytes, which have to start with the
    tag of an ASN.1 sequence; [URLEntries] is its JSON. *)
Definition parseSequence (der : list byte) : list byte + error :=
  match der with
  | x30 :: _ => inl der
  | _ => inr "asn1: structure error: tags don't match"
  end.

Definition exampleExtern : GoExtern :=
  {| TrimSpace := id;
     x509_CertificateRequest := list byte;
     x509_Certificate := list byte;
     Raw := id;
     ParseCertificateRequest := parseSequence;
     ParseCertificate := parseSequence;
     URLEntries := json;
     marshalURLEntries := id;
     unmarshalURLEntries := λ v _, (Some v, None) |}.

(** Example objects over [exampleExtern]: a request with the user fields
    [kv], and a response with the parsed certificate [cert]. *)
Definition exampleRequest (kv : kvmap) : @CIEPSRequest exampleExtern :=
  {| Version := 1; UUID := "6f1c8a52-0b7e-4c55-9d3a-2f4e1b7a9c10"; Sync := true;
     UserRequestKV := kv; IdentityRequestKV := None; ACMERequestKV := None;
     VaultRequestKV :=
       {| PolicyName := "web"; Mount := "pki/"; Namespace := "root";
          IsPerfStandby := true; IsPRSecondary := false;
          IssuanceMode := SignCIEPSMode; GeneratedKey := false;
          IssuerName := "default"; IssuerID := "a1"; IssuerCert := "";
          Config := {| AIAValues := None; LeafNotAfterBehavior := "err";
                       MountDefaultTTL := "768h"; MountMaxTTL := "768h" |} |};
     ParsedCSR := None |}.

Definition exampleResponse (cert : option (@x509_Certificate exampleExtern)) (store : bool)
  : @CIEPSResponse exampleExtern :=
  {| UUID' := "6f1c8a52-0b7e-4c55-9d3a-2f4e1b7a9c10"; Error := ""; Warnings := [];
     Certificate := ""; ParsedCertificate := cert; IssuerRef := "a1";
     StoreCert := store; GenerateLease := false |}.

(** The text of a certificate request with the DER bytes [30 03 02 01 00]. *)
Definition exampleCSR : string :=
  string_of_bytes
    (bytes_of_string "-----BEGIN CERTIFICATE REQUEST-----" ++ [x0a]
     ++ bytes_of_string "MAMCAQA=" ++ [x0a]
     ++ bytes_of_string "-----END CERTIFICATE REQUEST-----" ++ [x0a]).

(** The text of a certificate with the DER bytes [30 03 02 01 00], and of
    one with the DER bytes [30 03 02 01 01]. *)
Definition exampleCertificate : string :=
  string_of_bytes
    (bytes_of_string "-----BEGIN CERTIFICATE-----" ++ [x0a]
     ++ bytes_of_string "MAMCAQA=" ++ [x0a]
     ++ bytes_of_string "-----END CERTIFICATE-----" ++ [x0a]).

Definition exampleStandbyCertificate : string :=
  string_of_bytes
    (bytes_of_string "-----BEGIN CERTIFICATE-----" ++ [x0a]
     ++ bytes_of_string "MAMCAQE=" ++ [x0a]
     ++ bytes_of_string "-----END CERTIFICATE-----" ++ [x0a]).

(** An external service that answers a standby with one certificate and
    an active node with another one, both to be stored; the active node
    is refused when its request still carries the standby flag. *)
Definition exampleService (n : node) (req : @CIEPSRequest exampleExtern)
  : @CIEPSResponse exampleExtern :=
  match n with
  | Standby =>
      {| UUID' := UUID req; Error := ""; Warnings := ["evaluated on a standby"];
         Certificate := exampleStandbyCertificate; ParsedCertificate := None;
         IssuerRef := "b2"; StoreCert := true; GenerateLease := false |}
  | Active =>
      {| UUID' := UUID req;
         Error := if IsPerfStandby (VaultRequestKV req)
                  then "standby flag on the active node" else "";
         Warnings := ["ttl capped"];
         Certificate := exampleCertificate; ParsedCertificate := None;
         IssuerRef := "a1"; StoreCert := true; GenerateLease := true |}
  end.
(** * Properties *)

Ltac pow2 :=
  change (2 ^ 18)%N with 262144%N in *; change (2 ^ 12)%N with 4096%N in *;
  change (2 ^ 6)%N with 64%N in *; change (2 ^ 16)%N with 65536%N in *;
  change (2 ^ 8)%N with 256%N in *; change (2 ^ 0)%N with 1%N in *.

(** [Hd : c ∈ l] is absurd for a concrete [c] that is not in the
    concrete list [l]. *)
Ltac not_elem_absurd Hd :=
  repeat (apply elem_of_cons in Hd as [Hd|Hd]; [discriminate Hd|]);
  by apply elem_of_nil in Hd.

(** ** [encoding/base64]: decoding undoes encoding *)
Section base64_facts.
Import base64.
Local Open Scope N_scope.

Lemma lor_add (a b k : N) : a mod 2 ^ k = 0 → b < 2 ^ k → N.lor a b = a + b.
Proof.
  intros Ha Hb.
  assert (N.land a b = 0) as H0.
  { apply N.bits_inj. intros n. rewrite N.land_spec, N.bits_0.
    destruct (N.lt_ge_cases n k) as [Hn|Hn].
    - rewrite <- (N.mod_pow2_bits_low a k n Hn), Ha, N.bits_0. reflexivity.
    - replace b with (b mod 2 ^ k) by (apply N.mod_small; exact Hb).
      rewrite N.mod_pow2_bits_high by exact Hn. apply andb_false_r. }
  rewrite <- (N.lxor_lor _ _ H0). symmetry. by apply N.add_nocarry_lxor.
Qed.

Lemma uint_lt (b : byte) : uint b < 256.
Proof. unfold uint. pose proof (Byte.to_N_bounded b). lia. Qed.

Lemma to_byte_uint (v : N) (b : byte) : v mod 256 = uint b → to_byte v = b.
Proof.
  intros Hv. unfold to_byte. change 255 with (N.ones 8). rewrite N.land_ones.
  change (2 ^ 8) with 256. rewrite Hv. unfold uint. by rewrite Byte.of_to_N.
Qed.

Lemma decodeMap_encode (i : N) : i < 64 → decodeMap (encode i) = i.
Proof.
  intros Hi.
  assert (forallb (λ n, decodeMap (encode (N.of_nat n)) =? N.of_nat n) (seq 0 64) = true)
    as Hall by (vm_compute; reflexivity).
  rewrite forallb_forall in Hall.
  specialize (Hall (N.to_nat i)). rewrite N2Nat.id in Hall.
  apply N.eqb_eq, Hall, in_seq. lia.
Qed.

Lemma val3_eq (a b c : N) :
  a < 256 → b < 256 → c < 256 →
  N.lor (N.lor (N.shiftl a 16) (N.shiftl b 8)) c = a * 65536 + b * 256 + c.
Proof.
  intros Ha Hb Hc. rewrite !N.shiftl_mul_pow2.
  change (2 ^ 16) with 65536. change (2 ^ 8) with 256.
  rewrite (lor_add (a * 65536) (b * 256) 16), (lor_add _ c 8);
    change (2 ^ 16) with 65536; change (2 ^ 8) with 256; lia.
Qed.

Lemma val4_eq (s0 s1 s2 s3 : N) :
  s0 < 64 → s1 < 64 → s2 < 64 → s3 < 64 →
  N.lor (N.lor (N.lor (N.shiftl s0 18) (N.shiftl s1 12)) (N.shiftl s2 6)) s3
  = s0 * 262144 + s1 * 4096 + s2 * 64 + s3.
Proof.
  intros H0 H1 H2 H3. rewrite !N.shiftl_mul_pow2.
  change (2 ^ 18) with 262144. change (2 ^ 12) with 4096. change (2 ^ 6) with 64.
  rewrite (lor_add (s0 * 262144) (s1 * 4096) 18), (lor_add _ (s2 * 64) 12), (lor_add _ s3 6);
    change (2 ^ 18) with 262144; change (2 ^ 12) with 4096; change (2 ^ 6) with 64; lia.
Qed.

Lemma sextet_eq (x k : N) : N.land (N.shiftr x k) 63 = (x / 2 ^ k) mod 64.
Proof.
  rewrite N.shiftr_div_pow2. change 63 with (N.ones 6). by rewrite N.land_ones.
Qed.

Lemma sextet0_eq (x : N) : N.land x 63 = x mod 64.
Proof. change 63 with (N.ones 6). by rewrite N.land_ones. Qed.

Section quantum.
Context (a b c : N) (Ha : a < 256) (Hb : b < 256) (Hc : c < 256).
Let val := a * 65536 + b * 256 + c.

Lemma quantum_s0 : (val / 262144) mod 64 = a / 4.
Proof using Ha Hb Hc. subst val. lia. Qed.
Lemma quantum_s1 : (val / 4096) mod 64 = (a mod 4) * 16 + b / 16.
Proof using Ha Hb Hc. subst val. lia. Qed.
Lemma quantum_s2 : (val / 64) mod 64 = (b mod 16) * 4 + c / 64.
Proof using Ha Hb Hc. subst val. lia. Qed.
Lemma quantum_s3 : val mod 64 = c mod 64.
Proof using Ha Hb Hc. subst val. lia. Qed.
Lemma quantum_sum :
  (a / 4) * 262144 + ((a mod 4) * 16 + b / 16) * 4096
  + ((b mod 16) * 4 + c / 64) * 64 + c mod 64 = val.
Proof using Ha Hb Hc. subst val. lia. Qed.
Lemma quantum_b0 : (val / 65536) mod 256 = a.
Proof using Ha Hb Hc. subst val. lia. Qed.
Lemma quantum_b1 : (val / 256) mod 256 = b.
Proof using Ha Hb Hc. subst val. lia. Qed.
Lemma quantum_b2 : (val / 1) mod 256 = c.
Proof using Ha Hb Hc. subst val. lia. Qed.
End quantum.


Lemma val2_eq (a b : N) :
  a < 256 → b < 256 →
  N.lor (N.shiftl a 16) (N.shiftl b 8) = a * 65536 + b * 256 + 0.
Proof.
  intros Ha Hb. rewrite !N.shiftl_mul_pow2. pow2.
  rewrite (lor_add (a * 65536) (b * 256) 16); pow2; lia.
Qed.

Lemma val1_eq (a : N) : N.shiftl a 16 = a * 65536 + 0 * 256 + 0.
Proof. rewrite N.shiftl_mul_pow2. pow2. lia. Qed.

Lemma sextets_lt (b0 b1 b2 : byte) : Forall (λ s, s < 64) (sextets b0 b1 b2).
Proof.
  pose proof (uint_lt b0). pose proof (uint_lt b1). pose proof (uint_lt b2).
  unfold sextets. repeat constructor; lia.
Qed.

Lemma assemble_sextets (b0 b1 b2 : byte) (dbuf : list N) (dlen : nat) :
  (∀ i, nth i dbuf 0 = nth i (sextets b0 b1 b2) 0) →
  assemble dbuf dlen = take (dlen - 1) [b0; b1; b2].
Proof.
  intros Hd. unfold assemble. rewrite !Hd. cbn [nth sextets].
  pose proof (uint_lt b0). pose proof (uint_lt b1). pose proof (uint_lt b2).
  rewrite val4_eq by lia.
  rewrite quantum_sum by done. rewrite !N.shiftr_div_pow2. pow2.
  f_equal. f_equal; [|f_equal; [|f_equal]]; apply to_byte_uint.
  - by apply quantum_b0.
  - by apply quantum_b1.
  - by apply quantum_b2.
Qed.

Lemma Encode_3 (b0 b1 b2 : byte) (src : list byte) :
  Encode (b0 :: b1 :: b2 :: src) = (encode <$> sextets b0 b1 b2) ++ Encode src.
Proof.
  pose proof (uint_lt b0). pose proof (uint_lt b1). pose proof (uint_lt b2).
  cbn [Encode fmap list_fmap sextets app].
  rewrite !sextet_eq, sextet0_eq, val3_eq by done. pow2.
  by rewrite quantum_s0, quantum_s1, quantum_s2, quantum_s3.
Qed.

Lemma Encode_2 (b0 b1 : byte) :
  Encode [b0; b1] = (encode <$> take 3 (sextets b0 b1 x00)) ++ [StdPadding].
Proof.
  pose proof (uint_lt b0). pose proof (uint_lt b1).
  cbn [Encode fmap list_fmap sextets app take].
  rewrite !sextet_eq, val2_eq by done. pow2.
  by rewrite quantum_s0, quantum_s1, quantum_s2.
Qed.

Lemma Encode_1 (b0 : byte) :
  Encode [b0] = (encode <$> take 2 (sextets b0 x00 x00)) ++ [StdPadding; StdPadding].
Proof.
  pose proof (uint_lt b0).
  cbn [Encode fmap list_fmap sextets app take].
  rewrite !sextet_eq, val1_eq by done. pow2.
  by rewrite quantum_s0, quantum_s1.
Qed.

Lemma decodeLoop_valid (c : byte) (src : list byte) (dbuf : list N) :
  decodeMap c < 64 →
  decodeLoop (c :: src) dbuf
  = if (length dbuf =? 3)%nat
    then (assemble (dbuf ++ [decodeMap c]) 4 ++.) <$> decodeLoop src []
    else decodeLoop src (dbuf ++ [decodeMap c]).
Proof.
  intros Hc. cbn [decodeLoop].
  destruct (N.eqb_spec (decodeMap c) 255) as [E|E]; [lia|done].
Qed.

Lemma decodeLoop_encode (s : N) (src : list byte) (dbuf : list N) :
  s < 64 →
  decodeLoop (encode s :: src) dbuf
  = if (length dbuf =? 3)%nat
    then (assemble (dbuf ++ [s]) 4 ++.) <$> decodeLoop src []
    else decodeLoop src (dbuf ++ [s]).
Proof.
  intros Hs. rewrite decodeLoop_valid; rewrite decodeMap_encode; done.
Qed.

Lemma list_ind3 {A} (P : list A → Prop) :
  P [] → (∀ a, P [a]) → (∀ a b, P [a; b]) →
  (∀ a b c l, P l → P (a :: b :: c :: l)) → ∀ l, P l.
Proof.
  intros H0 H1 H2 H3 l.
  cut (P l ∧ (∀ a, P (a :: l)) ∧ (∀ a b, P (a :: b :: l))); [tauto|].
  induction l as [|x l (IH0 & IH1 & IH2)]; [auto|].
  split_and!; auto.
Qed.

(** Decoding undoes encoding. *)
Lemma Decode_Encode (src : list byte) : Decode (Encode src) = Some src.
Proof.
  unfold Decode. induction src as [|b0|b0 b1|b0 b1 b2 src IH] using list_ind3.
  - done.
  - rewrite Encode_1. pose proof (sextets_lt b0 x00 x00) as Hs.
    unfold sextets in *. cbn [take fmap list_fmap app].
    repeat (apply Forall_cons in Hs as [? Hs]).
    rewrite !decodeLoop_encode by done. cbn [length Nat.eqb app].
    change (decodeLoop [StdPadding; StdPadding] ?d) with (Some (assemble d 2)).
    rewrite (assemble_sextets b0 x00 x00); [done|].
    intros [|[|[|[|[|i]]]]]; reflexivity.
  - rewrite Encode_2. pose proof (sextets_lt b0 b1 x00) as Hs.
    unfold sextets in *. cbn [take fmap list_fmap app].
    repeat (apply Forall_cons in Hs as [? Hs]).
    rewrite !decodeLoop_encode by done. cbn [length Nat.eqb app].
    change (decodeLoop [StdPadding] ?d) with (Some (assemble d 3)).
    rewrite (assemble_sextets b0 b1 x00); [done|].
    intros [|[|[|[|[|i]]]]]; reflexivity.
  - rewrite Encode_3. pose proof (sextets_lt b0 b1 b2) as Hs.
    unfold sextets in *. cbn [fmap list_fmap app].
    repeat (apply Forall_cons in Hs as [? Hs]).
    rewrite !decodeLoop_encode by done. cbn [length Nat.eqb app].
    rewrite IH. cbn [fmap option_fmap option_map].
    by rewrite (assemble_sextets b0 b1 b2).
Qed.

(** *** Characters of the encoding *)
Lemma encode_b64char (s : N) : s < 64 → b64char (encode s) = true.
Proof.
  intros Hs.
  assert (forallb (λ n, b64char (encode (N.of_nat n))) (seq 0 64) = true)
    as Hall by (vm_compute; reflexivity).
  rewrite forallb_forall in Hall.
  specialize (Hall (N.to_nat s)). rewrite N2Nat.id in Hall.
  apply Hall, in_seq. lia.
Qed.

Lemma Encode_b64char (src : list byte) : Forall (λ c, b64char c = true) (Encode src).
Proof.
  induction src as [|b0|b0 b1|b0 b1 b2 src IH] using list_ind3.
  - constructor.
  - rewrite Encode_1. pose proof (sextets_lt b0 x00 x00) as Hs.
    unfold sextets in *. repeat (apply Forall_cons in Hs as [? Hs]).
    cbn [take fmap list_fmap app]. repeat constructor; by apply encode_b64char.
  - rewrite Encode_2. pose proof (sextets_lt b0 b1 x00) as Hs.
    unfold sextets in *. repeat (apply Forall_cons in Hs as [? Hs]).
    cbn [take fmap list_fmap app]. repeat constructor; by apply encode_b64char.
  - rewrite Encode_3. pose proof (sextets_lt b0 b1 b2) as Hs.
    unfold sextets in *. repeat (apply Forall_cons in Hs as [? Hs]).
    cbn [take fmap list_fmap app]. repeat (constructor; [by apply encode_b64char|]). done.
Qed.

Lemma Encode_nonempty (src : list byte) : src ≠ [] → Encode src ≠ [].
Proof. destruct src as [|b0 [|b1 [|b2 src]]]; done. Qed.

(** No character of the encoding is a dash, a colon, or white space. *)
Lemma b64char_plain (c : byte) :
  b64char c = true →
  c ≠ x2d ∧ c ≠ x3a ∧ c ≠ x20 ∧ c ≠ x09 ∧ isNewline c = false.
Proof.
  intros Hc. split_and!; try (intros ->; vm_compute in Hc; discriminate).
  destruct (isNewline c) eqn:E; [|done].
  unfold isNewline in E. apply orb_true_iff in E as [E|E];
    apply bool_decide_eq_true in E; subst c; vm_compute in Hc; discriminate.
Qed.

(** *** New lines do not change what is decoded *)
Lemma decodeMap_newline (c : byte) : isNewline c = true → decodeMap c = 255.
Proof.
  unfold isNewline. intros E. apply orb_true_iff in E as [E|E];
    apply bool_decide_eq_true in E; by subst c.
Qed.

Lemma skipNewlines_view (s : list byte) :
  match skipNewlines s with
  | [] => skipNewlines (dropNewlines s) = []
  | c :: s' => isNewline c = false ∧ skipNewlines (dropNewlines s) = c :: dropNewlines s'
  end.
Proof.
  induction s as [|c s IH]; [done|].
  cbn [skipNewlines]. unfold dropNewlines in *. destruct (isNewline c) eqn:E.
  - rewrite filter_cons_False by (by rewrite E). done.
  - rewrite filter_cons_True by done. cbn [skipNewlines]. by rewrite E.
Qed.

Lemma decodeLoop_dropNewlines (s : list byte) (dbuf : list N) :
  decodeLoop (dropNewlines s) dbuf = decodeLoop s dbuf.
Proof.
  revert dbuf. induction s as [|c s IH]; intros dbuf; [done|].
  unfold dropNewlines in *. destruct (isNewline c) eqn:E.
  - rewrite filter_cons_False by (by rewrite E).
    cbn [decodeLoop]. rewrite (decodeMap_newline c E), E. cbn. apply IH.
  - rewrite filter_cons_True by done. cbn [decodeLoop]. rewrite !IH, E.
    destruct (negb (decodeMap c =? 255)); [done|].
    destruct (negb (bool_decide (c = StdPadding))); [done|].
    destruct dbuf as [|d0 [|d1 [|d2 dbuf]]]; cbn [length]; try done.
    + pose proof (skipNewlines_view s) as Hv. fold (dropNewlines s).
      destruct (skipNewlines s) as [|c2 s2]; [by rewrite Hv|].
      destruct Hv as [_ ->]. destruct (negb (bool_decide (c2 = StdPadding))); [done|].
      pose proof (skipNewlines_view s2) as Hv2.
      destruct (skipNewlines s2) as [|c3 s3]; [by rewrite Hv2|].
      by destruct Hv2 as [_ ->].
    + pose proof (skipNewlines_view s) as Hv. fold (dropNewlines s).
      destruct (skipNewlines s) as [|c2 s2]; [by rewrite Hv|].
      by destruct Hv as [_ ->].
Qed.
End base64_facts.

(** ** [bytes] *)
Section bytes_facts.
Import bytes.

Lemma HasPrefix_app (p t : list byte) : HasPrefix (p ++ t) p = true.
Proof. induction p as [|c p IH]; [done|]. cbn. by rewrite bool_decide_eq_true_2. Qed.

Lemma HasPrefix_head (s p : list byte) (c : byte) :
  head s ≠ Some c → HasPrefix s (c :: p) = false.
Proof.
  destruct s as [|x s]; [done|]. cbn. intros Hx.
  rewrite bool_decide_eq_false_2; [done|]. congruence.
Qed.

Lemma HasSuffix_app (s e : list byte) : HasSuffix (s ++ e) e = true.
Proof.
  unfold HasSuffix. rewrite length_app.
  rewrite bool_decide_eq_true_2 by lia.
  replace (length s + length e - length e) with (length s) by lia.
  rewrite drop_app_length. by rewrite bool_decide_eq_true_2.
Qed.

Lemma IndexByte_app (line rest : list byte) (c : byte) :
  c ∉ line → IndexByte (line ++ c :: rest) c = Some (length line).
Proof.
  induction line as [|x line IH]; intros Hc; cbn.
  - by rewrite bool_decide_eq_true_2.
  - apply not_elem_of_cons in Hc as [Hx Hc].
    rewrite bool_decide_eq_false_2 by done. by rewrite IH.
Qed.

Lemma TrimRight_subseteq (s cutset : list byte) : TrimRight s cutset ⊆ s.
Proof.
  induction s as [|c s IH]; [done|]. cbn.
  destruct (TrimRight s cutset) as [|t ts] eqn:E.
  - case_bool_decide; [apply list_subseteq_nil|].
    intros y Hy. apply list_elem_of_singleton in Hy as ->. left.
  - intros y Hy. apply elem_of_cons in Hy as [->|Hy]; [left|right; by apply IH].
Qed.

Lemma TrimRight_snoc (s cutset : list byte) (c : byte) :
  c ∉ cutset → TrimRight (s ++ [c]) cutset = s ++ [c].
Proof.
  intros Hc. induction s as [|x s IH]; cbn.
  - by rewrite bool_decide_eq_false_2.
  - rewrite IH. by destruct s.
Qed.

(** The index of a separator [c1 :: c2 :: _] that follows text without
    [c2]. *)
Lemma Index_app (s t sep : list byte) (c1 c2 : byte) :
  Forall (λ c, c ≠ c2) s → head t ≠ Some c2 →
  HasPrefix t (c1 :: c2 :: sep) = true →
  Index (s ++ t) (c1 :: c2 :: sep) = Some (length s).
Proof.
  intros Hs Ht Hp. induction Hs as [|x s Hx Hs IH].
  - destruct t; [done|]. cbn [app Index length]. by rewrite Hp.
  - assert (HasPrefix (x :: s ++ t) (c1 :: c2 :: sep) = false) as Hx'.
    { cbn [HasPrefix]. apply andb_false_intro2, HasPrefix_head.
      destruct Hs; [done|]. cbn. congruence. }
    cbn [app Index]. by rewrite Hx', IH.
Qed.

Lemma Index_None (s : list byte) (c : byte) : c ∉ s → Index s [c] = None.
Proof.
  induction s as [|x s IH]; intros Hc; [done|].
  apply not_elem_of_cons in Hc as [Hx Hc].
  cbn. rewrite bool_decide_eq_false_2 by done. cbn. by rewrite IH.
Qed.
End bytes_facts.

(** ** [encoding/pem] *)
Section pem_facts.
Import bytes pem.
Context `{GoExtern}.

(** A line without trailing white space or carriage return, followed by
    a new line. *)
Lemma getLine_app (line rest : list byte) :
  x0a ∉ line → last line ≠ Some x0d →
  TrimRight line [x20; x09] = line →
  getLine (line ++ x0a :: rest) = (line, rest).
Proof.
  intros Hnl Hcr Htrim. unfold getLine. rewrite IndexByte_app by done.
  assert (drop (length line + 1) (line ++ x0a :: rest) = rest) as ->.
  { rewrite (cons_middle x0a line rest), app_assoc.
    apply drop_app_length'. rewrite length_app. cbn. lia. }
  assert (bool_decide (0 < length line)
          && bool_decide ((line ++ x0a :: rest) !! (length line - 1) = Some x0d) = false) as ->.
  { destruct (decide (0 < length line)) as [Hlen|Hlen].
    - rewrite andb_false_intro2; [done|]. apply bool_decide_eq_false_2.
      rewrite lookup_app_l by lia. rewrite last_lookup in Hcr.
      by replace (length line - 1) with (pred (length line)) by lia.
    - by rewrite bool_decide_eq_false_2. }
  by rewrite take_app_length, Htrim.
Qed.

Lemma getLine_subseteq (data : list byte) : (getLine data).1 ⊆ data.
Proof.
  unfold getLine. destruct (IndexByte data x0a) as [i|]; cbn [fst].
  - etrans; [apply TrimRight_subseteq|]. apply sublist_subseteq, sublist_take.
  - apply TrimRight_subseteq.
Qed.

Lemma readHeaders_none (fuel : nat) (rest : list byte) (headers : gmap string string) :
  rest ≠ [] → x3a ∉ rest → readHeaders fuel rest headers = Some (headers, rest).
Proof.
  intros Hne Hc.
  assert (bool_decide (length rest = 0) = false) as Hlen.
  { apply bool_decide_eq_false_2. by destruct rest. }
  pose proof (getLine_subseteq rest) as Hsub.
  destruct fuel; cbn [readHeaders]; rewrite Hlen;
    destruct (getLine rest) as [line next]; cbn [fst] in Hsub;
    unfold Cut, colon; rewrite Index_None; set_solver.
Qed.

(** *** The line breaker *)
Lemma lineBreaker_dropNewlines (used : nat) (b : list byte) :
  Forall (λ c, base64.isNewline c = false) b →
  dropNewlines (lineBreaker used b) = b.
Proof.
  intros Hb. revert used. unfold dropNewlines.
  induction Hb as [|c b Hc Hb IH]; intros used; cbn [lineBreaker].
  - by case_bool_decide.
  - case_bool_decide; cbn [app nl]; rewrite filter_cons_True by done;
      [by rewrite IH|].
    rewrite filter_cons_False by done. by rewrite IH.
Qed.

Lemma lineBreaker_chars (P : byte → Prop) (used : nat) (b : list byte) :
  P x0a → Forall P b → Forall P (lineBreaker used b).
Proof.
  intros Hnl Hb. revert used.
  induction Hb as [|c b Hc Hb IH]; intros used; cbn [lineBreaker].
  - case_bool_decide; by repeat constructor.
  - case_bool_decide; by repeat constructor.
Qed.

Lemma lineBreaker_cons (used : nat) (c : byte) (b : list byte) :
  lineBreaker used (c :: b)
  = if bool_decide (used + 1 < pemLineLength)
    then c :: lineBreaker (used + 1) b
    else c :: nl ++ lineBreaker 0 b.
Proof. done. Qed.

(** A body that is not empty starts with its first character and ends
    with a new line. *)
Lemma lineBreaker_shape (used : nat) (c : byte) (b : list byte) :
  ∃ body, lineBreaker used (c :: b) = (c :: body) ++ [x0a].
Proof.
  revert used c. induction b as [|c' b IH]; intros used c.
  - cbn [lineBreaker]. case_bool_decide.
    + rewrite bool_decide_eq_true_2 by lia. by exists [].
    + by exists [].
  - rewrite lineBreaker_cons. case_bool_decide.
    + destruct (IH (used + 1) c') as [body ->]. by exists (c' :: body).
    + destruct (IH 0 c') as [body ->]. by exists (x0a :: c' :: body).
Qed.

(** *** One well-formed block *)
Lemma getLine_dashes (pre rest : list byte) :
  x0a ∉ pre → getLine ((pre ++ pemEndOfLine) ++ x0a :: rest) = (pre ++ pemEndOfLine, rest).
Proof.
  intros Hpre. apply getLine_app.
  - rewrite elem_of_app. intros [?|Hd]; [done|]. unfold pemEndOfLine in Hd. not_elem_absurd Hd.
  - change pemEndOfLine with ([x2d; x2d; x2d; x2d] ++ [x2d]).
    by rewrite app_assoc, last_snoc.
  - change pemEndOfLine with ([x2d; x2d; x2d; x2d] ++ [x2d]).
    rewrite app_assoc. apply TrimRight_snoc. intros Hd. not_elem_absurd Hd.
Qed.

Lemma decodeBlock_text (ty body raw : list byte) :
  x0a ∉ ty →
  head body ≠ None → head body ≠ Some x2d →
  Forall (λ c, c ≠ x2d) body →
  base64.Decode (removeSpacesAndTabs body) = Some raw →
  decodeBlock ty ∅ (body ++ pemEnd ++ ty ++ pemEndOfLine ++ nl)
  = Some ({| Type_ := string_of_bytes ty; Headers := ∅; Bytes := raw |}, []).
Proof.
  intros Hty Hne Hhd Hbody Hraw. unfold decodeBlock.
  set (t := ty ++ pemEndOfLine ++ nl).
  assert (HasPrefix (body ++ pemEnd ++ t) (tail pemEnd) = false) as ->.
  { apply HasPrefix_head. by destruct body. }
  rewrite andb_false_r.
  rewrite (Index_app body _ (drop 2 pemEnd) x0a x2d); [|done|done|apply HasPrefix_app].
  cbn [fmap option_fmap option_map].
  assert (drop (length body + length pemEnd) (body ++ pemEnd ++ t) = t) as ->.
  { rewrite app_assoc. apply drop_app_length'. by rewrite length_app. }
  assert (drop (length body + length pemEnd - 1) (body ++ pemEnd ++ t)
          = ([x20] ++ ty ++ pemEndOfLine) ++ x0a :: []) as ->.
  { replace (length body + length pemEnd - 1) with (length body + 9) by (cbn; lia).
    rewrite drop_app_add' by done. subst t. cbn. by rewrite <- !app_assoc. }
  rewrite take_app_length, Hraw.
  assert (length t = length ty + length pemEndOfLine + 1) as Hlen.
  { subst t. rewrite !length_app. cbn. lia. }
  rewrite bool_decide_eq_false_2 by lia.
  subst t. rewrite (app_assoc ty pemEndOfLine nl).
  rewrite take_app_length' by (by rewrite length_app).
  rewrite drop_app_length' by (by rewrite length_app).
  rewrite HasPrefix_app, HasSuffix_app. cbn [negb orb].
  change (getLine nl) with (@nil byte, @nil byte). cbn [fst length].
  rewrite bool_decide_eq_true_2 by done. cbn [negb].
  rewrite (app_assoc [x20] ty pemEndOfLine), getLine_dashes; [done|].
  rewrite elem_of_app. intros [Hd|?]; [|done]. not_elem_absurd Hd.
Qed.

Lemma decodeLoop_text (fuel : nat) (data ty body raw : list byte) :
  x0a ∉ ty → x3a ∉ ty →
  head body ≠ None →
  Forall (λ c, c ≠ x2d ∧ c ≠ x3a) body →
  base64.Decode (removeSpacesAndTabs body) = Some raw →
  decodeLoop (S fuel) data
    (tail pemStart ++ (ty ++ pemEndOfLine) ++ x0a :: body ++ pemEnd ++ ty ++ pemEndOfLine ++ nl)
  = (Some {| Type_ := string_of_bytes ty; Headers := ∅; Bytes := raw |}, []).
Proof.
  intros Hty Hty' Hne Hbody Hraw. cbn [decodeLoop].
  unfold findStart. rewrite HasPrefix_app.
  rewrite drop_app_length' by done.
  rewrite getLine_dashes by done.
  rewrite HasSuffix_app. cbn [negb].
  rewrite readHeaders_none.
  - rewrite (length_app ty), Nat.add_sub, take_app_length.
    rewrite (decodeBlock_text ty body raw); [done|done|done| |eapply Forall_impl; [exact Hbody|]; by intros c [? ?]|done].
    destruct body as [|c body]; [done|]. apply Forall_cons in Hbody as [[? _] _].
    cbn. congruence.
  - by destruct body.
  - rewrite !elem_of_app. intros [Hc|[Hc|[Hc|[Hc|Hc]]]]; try done.
    + rewrite Forall_forall in Hbody.
      by destruct (Hbody _ Hc).
    + unfold pemEnd in Hc. not_elem_absurd Hc.
    + unfold pemEndOfLine in Hc. not_elem_absurd Hc.
    + unfold nl in Hc. not_elem_absurd Hc.
Qed.



Lemma removeSpacesAndTabs_id (data : list byte) :
  Forall (λ c, c ≠ x20 ∧ c ≠ x09) data → removeSpacesAndTabs data = data.
Proof.
  intros Hd. unfold removeSpacesAndTabs.
  induction Hd as [|c data [??] Hd IH]; [done|].
  rewrite filter_cons_True by (by intros [?|?]). by rewrite IH.
Qed.

Lemma dropNewlines_snoc (s : list byte) : dropNewlines (s ++ [x0a]) = dropNewlines s.
Proof. unfold dropNewlines. rewrite filter_app. cbn. apply app_nil_r. Qed.

(** The text that [Encode] writes for a block without headers. *)
Lemma Encode_no_headers (ty : string) (raw : list byte) :
  pem.Encode {| Type_ := ty; Headers := ∅; Bytes := raw |}
  = Some (tail pemStart ++ (bytes_of_string ty ++ pemEndOfLine) ++ nl
          ++ lineBreaker 0 (base64.Encode raw)
          ++ tail pemEnd ++ bytes_of_string ty ++ pemEndOfLine ++ nl).
Proof.
  unfold pem.Encode, encodeHeaders. cbn [Headers Type_ Bytes].
  rewrite map_to_list_empty, map_size_empty. cbn [fmap list_fmap].
  rewrite bool_decide_eq_false_2 by (by intros ?%Exists_nil).
  rewrite bool_decide_eq_false_2 by lia.
  by rewrite <- !app_assoc.
Qed.

(** Decoding the text of a block without headers gives the block back and
    leaves nothing over. *)
Lemma Decode_EncodeToMemory (ty : string) (raw : list byte) :
  x0a ∉ bytes_of_string ty → x3a ∉ bytes_of_string ty → raw ≠ [] →
  pem.Decode (EncodeToMemory {| Type_ := ty; Headers := ∅; Bytes := raw |})
  = (Some {| Type_ := ty; Headers := ∅; Bytes := raw |}, []).
Proof.
  intros Hty Hty' Hraw. unfold EncodeToMemory. rewrite Encode_no_headers.
  pose proof (Encode_nonempty raw Hraw) as Hne.
  pose proof (Encode_b64char raw) as Hchars.
  pose proof (Decode_Encode raw) as Hdec.
  destruct (base64.Encode raw) as [|c enc] eqn:Henc; [done|].
  destruct (lineBreaker_shape 0 c enc) as [body Hbody].
  assert (Forall (λ c, c ≠ x2d ∧ c ≠ x3a ∧ c ≠ x20 ∧ c ≠ x09) ((c :: body) ++ [x0a]))
    as [Hplain _]%Forall_app.
  { rewrite <- Hbody. apply lineBreaker_chars; [done|].
    eapply Forall_impl; [exact Hchars|]. intros x Hx.
    by destruct (b64char_plain x Hx) as (?&?&?&?&?). }
  assert (dropNewlines (c :: body) = c :: enc) as Hdrop.
  { rewrite <- dropNewlines_snoc, <- Hbody. apply lineBreaker_dropNewlines.
    eapply Forall_impl; [exact Hchars|]. intros x Hx.
    by destruct (b64char_plain x Hx) as (?&?&?&?&?). }
  rewrite Hbody, <- (app_assoc (c :: body) [x0a]). unfold pem.Decode.
  change ([x0a] ++ tail pemEnd ++ ?Y) with (pemEnd ++ Y).
  change (nl ++ ?X) with (x0a :: X).
  rewrite (decodeLoop_text _ _ (bytes_of_string ty) (c :: body) raw);
    [by rewrite String.string_of_list_byte_of_string|done|done|done| |].
  - eapply Forall_impl; [exact Hplain|]. by intros x (?&?&?&?).
  - rewrite removeSpacesAndTabs_id
      by (eapply Forall_impl; [exact Hplain|]; by intros x (?&?&?&?)).
    unfold base64.Decode in *. by rewrite <- decodeLoop_dropNewlines, Hdrop.
Qed.

(** *** The loops end: more turns than bytes change nothing *)
Lemma getLine_length (data : list byte) : length (getLine data).2 ≤ length data.
Proof.
  unfold getLine. destruct (IndexByte data x0a); cbn [snd length]; [|lia].
  rewrite length_drop. lia.
Qed.

Lemma IndexByte_lt (data : list byte) (c : byte) (i : nat) :
  IndexByte data c = Some i → i < length data.
Proof.
  revert i. induction data as [|x data IH]; intros i; cbn; [done|].
  case_bool_decide; [intros [= <-]; lia|].
  destruct (IndexByte data c) as [j|]; [|done]. intros [= <-].
  specialize (IH j eq_refl). lia.
Qed.

Lemma getLine_shorter (data : list byte) :
  data ≠ [] → length (getLine data).2 < length data.
Proof.
  intros Hne. unfold getLine. destruct (IndexByte data x0a) as [i|] eqn:E; cbn [snd length].
  - apply IndexByte_lt in E. rewrite length_drop. lia.
  - destruct data; [done|]. cbn. lia.
Qed.

Lemma readHeaders_fuel (fuel fuel' : nat) (rest : list byte) (headers : gmap string string) :
  length rest ≤ fuel → length rest ≤ fuel' →
  readHeaders fuel rest headers = readHeaders fuel' rest headers.
Proof.
  revert fuel' rest headers.
  induction fuel as [|fuel IH]; intros fuel' rest headers Hf Hf'.
  - destruct rest; [|cbn in Hf; lia]. by destruct fuel'.
  - destruct (decide (rest = [])) as [->|Hne]; [by destruct fuel'|].
    pose proof (getLine_shorter rest Hne) as Hlt.
    destruct fuel' as [|fuel']; [destruct rest; [done|cbn in Hf'; lia]|].
    cbn [readHeaders]. case_bool_decide; [done|].
    destruct (getLine rest) as [line next]. cbn [snd] in Hlt.
    destruct (Cut line colon) as [[key val]|]; [|done].
    apply IH; lia.
Qed.

Lemma readHeaders_length (fuel : nat) (rest rest' : list byte)
    (headers headers' : gmap string string) :
  readHeaders fuel rest headers = Some (headers', rest') → length rest' ≤ length rest.
Proof.
  revert rest headers. induction fuel as [|fuel IH]; intros rest headers;
    cbn [readHeaders]; case_bool_decide; try done;
    pose proof (getLine_length rest) as Hle;
    destruct (getLine rest) as [line next]; cbn [snd] in Hle;
    destruct (Cut line colon) as [[key val]|]; try done.
  - by intros [= <- <-].
  - intros Hr. apply IH in Hr. lia.
  - by intros [= <- <-].
Qed.

Lemma HasPrefix_length (s p : list byte) : HasPrefix s p = true → length p ≤ length s.
Proof.
  revert s. induction p as [|c p IH]; intros s; cbn; [lia|].
  destruct s as [|x s]; [done|]. intros [_ Hp]%andb_true_iff. cbn. apply IH in Hp. lia.
Qed.

Lemma Index_length (s sep : list byte) (i : nat) :
  Index s sep = Some i → i + length sep ≤ length s.
Proof.
  revert i. induction s as [|x s IH]; intros i; cbn [Index].
  - destruct (HasPrefix [] sep) eqn:E; [|done]. intros [= <-]. by apply HasPrefix_length in E.
  - destruct (HasPrefix (x :: s) sep) eqn:E.
    + intros [= <-]. by apply HasPrefix_length in E.
    + destruct (Index s sep) as [j|]; [|done]. intros [= <-].
      specialize (IH j eq_refl). cbn. lia.
Qed.

Lemma findStart_shorter (rest rest' : list byte) :
  findStart rest = Some rest' → length rest' < length rest.
Proof.
  unfold findStart. destruct (HasPrefix rest (tail pemStart)) eqn:E.
  - intros [= <-]. apply HasPrefix_length in E. rewrite length_drop. cbn in *. lia.
  - unfold Cut. destruct (Index rest pemStart) as [i|] eqn:Ei; [|done].
    intros [= <-]. apply Index_length in Ei. rewrite length_drop. cbn in *. lia.
Qed.

Lemma decodeLoop_fuel (fuel fuel' : nat) (data rest : list byte) :
  length rest < fuel → length rest < fuel' →
  decodeLoop fuel data rest = decodeLoop fuel' data rest.
Proof.
  revert fuel' rest. induction fuel as [|fuel IH]; intros fuel' rest Hf Hf'; [lia|].
  destruct fuel' as [|fuel']; [lia|]. cbn [decodeLoop].
  destruct (findStart rest) as [rest1|] eqn:E1; [|done].
  apply findStart_shorter in E1.
  pose proof (getLine_length rest1) as Hle.
  destruct (getLine rest1) as [typeLine rest2]. cbn [snd] in Hle.
  destruct (negb (HasSuffix typeLine pemEndOfLine)); [apply IH; lia|].
  destruct (readHeaders (length rest2) rest2 ∅) as [[headers rest3]|] eqn:E3; [|done].
  apply readHeaders_length in E3.
  destruct (decodeBlock _ headers rest3) as [[p rest4]|]; [done|].
  apply IH; lia.
Qed.
End pem_facts.
(** ** [encoding/pem]: a block inside other text *)
Section pem_framed.
Import bytes pem.
Context `{GoExtern}.

Lemma IndexByte_app_le (s t : list byte) (c : byte) :
  ∃ i, IndexByte (s ++ c :: t) c = Some i ∧ i ≤ length s.
Proof.
  induction s as [|x s (i & Hi & Hle)]; cbn.
  - exists 0. by rewrite bool_decide_eq_true_2.
  - case_bool_decide; [exists 0; split; [done|lia]|].
    exists (S i). rewrite Hi. split; [done|lia].
Qed.

(** The first line of a text is part of what stands before its first new
    line. *)
Lemma getLine_first (s t : list byte) : (getLine (s ++ x0a :: t)).1 ⊆ s.
Proof.
  unfold getLine. destruct (IndexByte_app_le s t x0a) as (i & -> & Hle). cbn [fst].
  etrans; [apply TrimRight_subseteq|].
  set (i' := if _ : bool then i - 1 else i).
  assert (i' ≤ length s) as Hi' by (subst i'; destruct (_ && _); lia).
  rewrite take_app_le by done. apply sublist_subseteq, sublist_take.
Qed.

Lemma readHeaders_first (fuel : nat) (rest : list byte) (headers : gmap string string) :
  rest ≠ [] → x3a ∉ (getLine rest).1 → readHeaders fuel rest headers = Some (headers, rest).
Proof.
  intros Hne Hc.
  assert (bool_decide (length rest = 0) = false) as Hlen.
  { apply bool_decide_eq_false_2. by destruct rest. }
  destruct fuel; cbn [readHeaders]; rewrite Hlen;
    destruct (getLine rest) as [line next]; cbn [fst] in Hc;
    unfold Cut, colon; by rewrite Index_None.
Qed.

Lemma getLine_empty_line (rest : list byte) : getLine (x0a :: rest) = ([], rest).
Proof. by apply (getLine_app [] rest); [apply not_elem_of_nil|..]. Qed.

Lemma decodeBlock_framed (ty body raw extra : list byte) :
  x0a ∉ ty →
  head body ≠ None → head body ≠ Some x2d →
  Forall (λ c, c ≠ x2d) body →
  base64.Decode (removeSpacesAndTabs body) = Some raw →
  decodeBlock ty ∅ (body ++ pemEnd ++ ty ++ pemEndOfLine ++ nl ++ extra)
  = Some ({| Type_ := string_of_bytes ty; Headers := ∅; Bytes := raw |}, extra).
Proof.
  intros Hty Hne Hhd Hbody Hraw. unfold decodeBlock.
  set (t := ty ++ pemEndOfLine ++ nl ++ extra).
  assert (HasPrefix (body ++ pemEnd ++ t) (tail pemEnd) = false) as ->.
  { apply HasPrefix_head. by destruct body. }
  rewrite andb_false_r.
  rewrite (Index_app body _ (drop 2 pemEnd) x0a x2d); [|done|done|apply HasPrefix_app].
  cbn [fmap option_fmap option_map].
  assert (drop (length body + length pemEnd) (body ++ pemEnd ++ t) = t) as ->.
  { rewrite app_assoc. apply drop_app_length'. by rewrite length_app. }
  assert (drop (length body + length pemEnd - 1) (body ++ pemEnd ++ t)
          = ([x20] ++ ty ++ pemEndOfLine) ++ x0a :: extra) as ->.
  { replace (length body + length pemEnd - 1) with (length body + 9) by (cbn; lia).
    rewrite drop_app_add' by done. subst t. cbn. by rewrite <- !app_assoc. }
  rewrite take_app_length, Hraw.
  assert (length t = length ty + length pemEndOfLine + S (length extra)) as Hlen.
  { subst t. rewrite !length_app. cbn. lia. }
  rewrite bool_decide_eq_false_2 by lia.
  subst t. rewrite (app_assoc ty pemEndOfLine (nl ++ extra)).
  rewrite take_app_length' by (by rewrite length_app).
  rewrite drop_app_length' by (by rewrite length_app).
  rewrite HasPrefix_app, HasSuffix_app. cbn [negb orb].
  change (nl ++ extra) with (x0a :: extra). rewrite getLine_empty_line. cbn [fst length].
  rewrite bool_decide_eq_true_2 by done. cbn [negb].
  rewrite (app_assoc [x20] ty pemEndOfLine), getLine_dashes; [done|].
  rewrite elem_of_app. intros [Hd|?]; [|done]. not_elem_absurd Hd.
Qed.

Lemma findStart_here (text : list byte) : findStart (tail pemStart ++ text) = Some text.
Proof. unfold findStart. by rewrite HasPrefix_app, drop_app_length'. Qed.

(** Text without a dash is skipped up to the new line before the BEGIN. *)
Lemma findStart_after (pre text : list byte) :
  Forall (λ c, c ≠ x2d) pre → findStart (pre ++ pemStart ++ text) = Some text.
Proof.
  intros Hpre. unfold findStart.
  assert (HasPrefix (pre ++ pemStart ++ text) (tail pemStart) = false) as ->.
  { apply HasPrefix_head. destruct Hpre; [done|]. cbn. congruence. }
  unfold Cut.
  rewrite (Index_app pre _ (drop 2 pemStart) x0a x2d); [|done|done|apply HasPrefix_app].
  cbn [fmap option_fmap option_map snd]. f_equal.
  rewrite app_assoc. apply drop_app_length'. by rewrite length_app.
Qed.

Lemma decodeLoop_framed (fuel : nat) (data rest ty body raw extra : list byte) :
  findStart rest
  = Some ((ty ++ pemEndOfLine) ++ x0a :: body ++ pemEnd ++ ty ++ pemEndOfLine ++ nl ++ extra) →
  x0a ∉ ty →
  head body ≠ None →
  Forall (λ c, c ≠ x2d ∧ c ≠ x3a) body →
  base64.Decode (removeSpacesAndTabs body) = Some raw →
  decodeLoop (S fuel) data rest
  = (Some {| Type_ := string_of_bytes ty; Headers := ∅; Bytes := raw |}, extra).
Proof.
  intros Hstart Hty Hne Hbody Hraw. cbn [decodeLoop]. rewrite Hstart.
  rewrite getLine_dashes by done.
  rewrite HasSuffix_app. cbn [negb].
  rewrite readHeaders_first.
  - rewrite (length_app ty), Nat.add_sub, take_app_length.
    rewrite (decodeBlock_framed ty body raw extra);
      [done|done|done| |eapply Forall_impl; [exact Hbody|]; by intros c [? ?]|done].
    destruct body as [|c body]; [done|]. apply Forall_cons in Hbody as [[? _] _].
    cbn. congruence.
  - by destruct body.
  - change (pemEnd ++ ?t) with (x0a :: tail pemEnd ++ t).
    intros Hc%getLine_first. rewrite Forall_forall in Hbody. by destruct (Hbody _ Hc).
Qed.

(** The text of a block without headers: the BEGIN line, a body of
    plain characters and new lines that decodes to the bytes, the END
    line. *)
Lemma EncodeToMemory_shape (ty : string) (raw : list byte) :
  raw ≠ [] →
  ∃ body,
    EncodeToMemory {| Type_ := ty; Headers := ∅; Bytes := raw |}
    = tail pemStart ++ (bytes_of_string ty ++ pemEndOfLine)
      ++ x0a :: body ++ pemEnd ++ bytes_of_string ty ++ pemEndOfLine ++ nl
    ∧ head body ≠ None
    ∧ Forall (λ c, c ≠ x2d ∧ c ≠ x3a) body
    ∧ base64.Decode (removeSpacesAndTabs body) = Some raw.
Proof.
  intros Hraw. unfold EncodeToMemory. rewrite Encode_no_headers.
  pose proof (Encode_nonempty raw Hraw) as Hne.
  pose proof (Encode_b64char raw) as Hchars.
  pose proof (Decode_Encode raw) as Hdec.
  destruct (base64.Encode raw) as [|c enc] eqn:Henc; [done|].
  destruct (lineBreaker_shape 0 c enc) as [body Hbody].
  assert (Forall (λ c, c ≠ x2d ∧ c ≠ x3a ∧ c ≠ x20 ∧ c ≠ x09) ((c :: body) ++ [x0a]))
    as [Hplain _]%Forall_app.
  { rewrite <- Hbody. apply lineBreaker_chars; [done|].
    eapply Forall_impl; [exact Hchars|]. intros x Hx.
    by destruct (b64char_plain x Hx) as (?&?&?&?&?). }
  assert (dropNewlines (c :: body) = c :: enc) as Hdrop.
  { rewrite <- dropNewlines_snoc, <- Hbody. apply lineBreaker_dropNewlines.
    eapply Forall_impl; [exact Hchars|]. intros x Hx.
    by destruct (b64char_plain x Hx) as (?&?&?&?&?). }
  exists (c :: body). split_and!.
  - rewrite Hbody, <- (app_assoc (c :: body) [x0a]). done.
  - done.
  - eapply Forall_impl; [exact Hplain|]. by intros x (?&?&?&?).
  - rewrite removeSpacesAndTabs_id
      by (eapply Forall_impl; [exact Hplain|]; by intros x (?&?&?&?)).
    unfold base64.Decode in *. by rewrite <- decodeLoop_dropNewlines, Hdrop.
Qed.

(** Decoding finds the block after lines of text without a dash, and
    leaves over what follows its END line. *)
Lemma Decode_framed (lead extra : list byte) (ty : string) (raw : list byte) :
  lead = [] ∨ (∃ pre, lead = pre ++ [x0a] ∧ Forall (λ c, c ≠ x2d) pre) →
  x0a ∉ bytes_of_string ty → raw ≠ [] →
  pem.Decode (lead ++ EncodeToMemory {| Type_ := ty; Headers := ∅; Bytes := raw |} ++ extra)
  = (Some {| Type_ := ty; Headers := ∅; Bytes := raw |}, extra).
Proof.
  intros Hlead Hty Hraw.
  destruct (EncodeToMemory_shape ty raw Hraw) as (body & -> & Hne & Hbody & Hdec).
  unfold pem.Decode.
  rewrite (decodeLoop_framed _ _ _ (bytes_of_string ty) body raw extra);
    [by rewrite String.string_of_list_byte_of_string| |done|done|done|done].
  set (text := (bytes_of_string ty ++ pemEndOfLine)
               ++ x0a :: body ++ pemEnd ++ bytes_of_string ty ++ pemEndOfLine ++ nl ++ extra).
  destruct Hlead as [->|(pre & -> & Hpre)].
  - rewrite <- (findStart_here text). f_equal. subst text.
    cbn [app]. by repeat (rewrite <- app_assoc || rewrite <- app_comm_cons).
  - rewrite <- (findStart_after pre text) by done. f_equal. subst text.
    by repeat (rewrite <- app_assoc || rewrite <- app_comm_cons).
Qed.

End pem_framed.

(** ** [cieps.go]: the two methods *)
Section methods.
Context `{GoExtern}.

Lemma bytes_of_string_nonempty (s : string) : s ≠ "" → bytes_of_string s ≠ [].
Proof. by destruct s. Qed.

Lemma bytes_of_string_of_bytes (b : list byte) : bytes_of_string (string_of_bytes b) = b.
Proof. apply String.list_byte_of_string_of_list_byte. Qed.

(** When no block is found the whole input is left over. *)
Lemma pem_decodeLoop_None (fuel : nat) (data rest : list byte) :
  (pem.decodeLoop fuel data rest).1 = None → (pem.decodeLoop fuel data rest).2 = data.
Proof.
  revert rest. induction fuel as [|fuel IH]; intros rest; [done|].
  cbn [pem.decodeLoop].
  destruct (pem.findStart rest) as [rest1|]; [|done].
  destruct (pem.getLine rest1) as [typeLine rest2].
  destruct (negb _); [apply IH|].
  destruct (pem.readHeaders _ rest2 ∅) as [[headers rest3]|]; [|done].
  destruct (pem.decodeBlock _ headers rest3) as [[p rest4]|]; [done|apply IH].
Qed.

Lemma pem_Decode_None (data : list byte) :
  (pem.Decode data).1 = None → (pem.Decode data).2 = data.
Proof. apply pem_decodeLoop_None. Qed.

(** The number of turns given to the loop by [Decode] is enough: more
    turns give the same result. *)
Lemma pem_Decode_fuel (fuel : nat) (data : list byte) :
  length data < fuel → pem.decodeLoop fuel data data = pem.Decode data.
Proof. intros Hf. apply decodeLoop_fuel; [done|lia]. Qed.

Lemma pem_EncodeToMemory_nonempty (ty : string) (raw : list byte) :
  pem.EncodeToMemory {| pem.Type_ := ty; pem.Headers := ∅; pem.Bytes := raw |} ≠ [].
Proof. unfold pem.EncodeToMemory. by rewrite Encode_no_headers. Qed.

Lemma pem_EncodeToMemory_certificate (raw : list byte) :
  pem.EncodeToMemory {| pem.Type_ := "CERTIFICATE"; pem.Headers := ∅; pem.Bytes := raw |}
  = certificatePEM raw.
Proof. unfold pem.EncodeToMemory. by rewrite Encode_no_headers. Qed.

(** [MarshalCertificate] on a certificate with DER bytes. *)
Lemma MarshalCertificate_ok (c : CIEPSResponse) (cert : x509_Certificate) :
  ParsedCertificate c = Some cert → Raw cert ≠ [] →
  MarshalCertificate c
  = (setCertificate (string_of_bytes (certificatePEM (Raw cert))) c, None).
Proof.
  intros Hc Hraw. unfold MarshalCertificate. rewrite Hc.
  rewrite bool_decide_eq_false_2 by (by destruct (Raw cert)).
  rewrite bool_decide_eq_false_2.
  - by rewrite pem_EncodeToMemory_certificate.
  - intros Hlen. by apply (pem_EncodeToMemory_nonempty "CERTIFICATE" (Raw cert)), nil_length_inv.
Qed.

Lemma MarshalCertificate_absent (c : CIEPSResponse) :
  ParsedCertificate c = None ∨ (∃ cert, ParsedCertificate c = Some cert ∧ Raw cert = []) →
  MarshalCertificate c = (c, Some "no certificate present").
Proof.
  unfold MarshalCertificate. intros [->|(cert & -> & ->)]; [done|].
  by rewrite bool_decide_eq_true_2.
Qed.

(** The cases of [ParseUserCSR], one lemma for each [return]. *)
Lemma ParseUserCSR_missing (req : CIEPSRequest) :
  mapIndex (UserRequestKV req) "csr" = None →
  ParseUserCSR req = (req, Some "missing expected 'csr' attribute on the request").
Proof. unfold ParseUserCSR. by intros ->. Qed.

Lemma ParseUserCSR_wrong_type (req : CIEPSRequest) (v : value) :
  mapIndex (UserRequestKV req) "csr" = Some v → (∀ s, v ≠ VString s) →
  ParseUserCSR req = (req, Some ("unexpected type of 'csr' attribute: " +:+ typeName v)).
Proof. unfold ParseUserCSR. intros -> Hv. destruct v; try done. by destruct (Hv s). Qed.

Lemma ParseUserCSR_empty (req : CIEPSRequest) :
  mapIndex (UserRequestKV req) "csr" = Some (VString "") →
  ParseUserCSR req = (req, Some "unexpectedly empty 'csr' attribute on the request").
Proof. unfold ParseUserCSR. by intros ->. Qed.

Lemma ParseUserCSR_text (req : CIEPSRequest) (s : string) :
  mapIndex (UserRequestKV req) "csr" = Some (VString s) → s ≠ "" →
  ParseUserCSR req
  = let '(block, rest) := pem.Decode (bytes_of_string s) in
    if bool_decide (0 < length rest) then (req, Some (trailingDataError (length rest)))
    else match block with
         | None => (req, Some "failed to decode 'csr' PEM block")
         | Some block =>
             match ParseCertificateRequest (pem.Bytes block) with
             | inr err => (req, Some ("failed to parse certificate request: " +:+ err))
             | inl csr => (setParsedCSR (Some csr) req, None)
             end
         end.
Proof.
  unfold ParseUserCSR. intros -> Hs. by rewrite bool_decide_eq_false_2.
Qed.

(** The message for [n] bytes after the block holds the decimal numeral
    of [n]: read as a numeral, the text between the two fixed parts is
    [n]. *)
Lemma trailingDataError_decimal (n : nat) :
  ∃ d, NilEmpty.uint_of_string d = Some (Nat.to_uint n)
       ∧ trailingDataError n
         = "failed to decode 'csr': " +:+ d +:+ " bytes of trailing data after PEM block".
Proof. exists (formatInt n). split; [apply NilEmpty.usu|done]. Qed.

Lemma decimal_numeral (d : string) (n : nat) :
  NilEmpty.uint_of_string d = Some (Nat.to_uint n) →
  d = NilEmpty.string_of_uint (Nat.to_uint n).
Proof. intros Hd. symmetry. by apply NilEmpty.sus. Qed.

(** The body that [MarshalCertificate] writes between the two lines: no
    dash in it, and base64 decoding gives the raw bytes back. *)
Lemma certificate_body (raw : list byte) :
  Forall (λ b, b ≠ x2d) (pem.lineBreaker 0 (base64.Encode raw))
  ∧ base64.Decode (pem.lineBreaker 0 (base64.Encode raw)) = Some raw.
Proof.
  pose proof (Encode_b64char raw) as Hchars. split.
  - apply lineBreaker_chars; [done|].
    eapply Forall_impl; [exact Hchars|]. intros x Hx.
    by destruct (b64char_plain x Hx) as (?&?&?&?&?).
  - unfold base64.Decode. rewrite <- decodeLoop_dropNewlines, lineBreaker_dropNewlines.
    + apply Decode_Encode.
    + eapply Forall_impl; [exact Hchars|]. intros x Hx.
      by destruct (b64char_plain x Hx) as (?&?&?&?&?).
Qed.

(** The request after [ParseUserCSR] is the request before it with
    another [ParsedCSR], and the same request when an error is
    returned. *)
Lemma ParseUserCSR_shape (req : CIEPSRequest) :
  (∃ e, ParseUserCSR req = (req, Some e))
  ∨ (∃ csr, ParseUserCSR req = (setParsedCSR (Some csr) req, None)).
Proof.
  unfold ParseUserCSR.
  destruct (mapIndex (UserRequestKV req) "csr") as [v|]; [|by left; eexists].
  destruct v; try (by left; eexists).
  case_bool_decide; [by left; eexists|].
  destruct (pem.Decode (bytes_of_string s)) as [block rest].
  case_bool_decide; [by left; eexists|].
  destruct block as [block|]; [|by left; eexists].
  destruct (ParseCertificateRequest (pem.Bytes block)) as [csr|err].
  - right. by eexists.
  - left. by eexists.
Qed.

(** A certificate request in the text that [pem.Encode] writes is
    accepted when its DER bytes parse. *)
Lemma ParseUserCSR_encoded (req : CIEPSRequest) (der : list byte)
    (csr : x509_CertificateRequest) :
  mapIndex (UserRequestKV req) "csr"
  = Some (VString (string_of_bytes
                     (pem.EncodeToMemory {| pem.Type_ := "CERTIFICATE REQUEST";
                                            pem.Headers := ∅; pem.Bytes := der |}))) →
  der ≠ [] → ParseCertificateRequest der = inl csr →
  ParseUserCSR req = (setParsedCSR (Some csr) req, None).
Proof.
  intros Hcsr Hder Hparse.
  rewrite (ParseUserCSR_text req _ Hcsr).
  - rewrite bytes_of_string_of_bytes, Decode_EncodeToMemory; [|..|done].
    + cbn [length pem.Bytes]. rewrite bool_decide_eq_false_2 by lia. by rewrite Hparse.
    + intros Hd. vm_compute in Hd. not_elem_absurd Hd.
    + intros Hd. vm_compute in Hd. not_elem_absurd Hd.
  - intros Hempty. apply (f_equal bytes_of_string) in Hempty.
    rewrite bytes_of_string_of_bytes in Hempty.
    by apply (pem_EncodeToMemory_nonempty "CERTIFICATE REQUEST" der).
Qed.

End methods.
(** ** [ParseUserCSR] and [MarshalCertificate] against the specification *)
Section method_properties.
Context `{GoExtern}.

(** C2: a request whose [UserRequestKV] has no ['csr'] entry, a ['csr']
    entry that is not a string, or an empty ['csr'] string makes
    [ParseUserCSR] return an error; each of the three cases has a message
    of its own that names the field, the three messages differ from each
    other whatever the type of the entry, and the request is returned as
    it was: no value is put in the place of the missing one. *)
Theorem ParseUserCSR_csr_field_errors (req : CIEPSRequest) :
  (mapIndex (UserRequestKV req) "csr" = None →
   ParseUserCSR req = (req, Some "missing expected 'csr' attribute on the request"))
  ∧ (∀ v, mapIndex (UserRequestKV req) "csr" = Some v → (∀ s, v ≠ VString s) →
     ParseUserCSR req
     = (req, Some ("unexpected type of 'csr' attribute: " +:+ typeName v)))
  ∧ (mapIndex (UserRequestKV req) "csr" = Some (VString "") →
     ParseUserCSR req = (req, Some "unexpectedly empty 'csr' attribute on the request"))
  ∧ (∀ v,
       "missing expected 'csr' attribute on the request"
       ≠ "unexpected type of 'csr' attribute: " +:+ typeName v
       ∧ "missing expected 'csr' attribute on the request"
         ≠ "unexpectedly empty 'csr' attribute on the request"
       ∧ "unexpected type of 'csr' attribute: " +:+ typeName v
         ≠ "unexpectedly empty 'csr' attribute on the request").
Proof.
  split_and!.
  - apply ParseUserCSR_missing.
  - apply ParseUserCSR_wrong_type.
  - apply ParseUserCSR_empty.
  - intros v. split_and!; [done|done|]. by destruct v.
Qed.

(** C3: for a ['csr'] entry that is a string and not empty,
    [ParseUserCSR] decodes one PEM block; bytes left over after the block
    are an error whose message gives their number as a decimal numeral
    between "failed to decode 'csr': " and " bytes of trailing data after
    PEM block", and so is a text in which no block is found: all of it is
    left over then, and the message gives the length of the text. *)
Theorem ParseUserCSR_pem_errors (req : CIEPSRequest) (s : string)
    (block : option pem.Block) (rest : list byte) :
  mapIndex (UserRequestKV req) "csr" = Some (VString s) → s ≠ "" →
  pem.Decode (bytes_of_string s) = (block, rest) →
  (rest ≠ [] →
   ∃ d, NilEmpty.uint_of_string d = Some (Nat.to_uint (length rest))
        ∧ ParseUserCSR req
          = (req, Some ("failed to decode 'csr': " +:+ d
                        +:+ " bytes of trailing data after PEM block")))
  ∧ (block = None →
     rest = bytes_of_string s
     ∧ ∃ d, NilEmpty.uint_of_string d = Some (Nat.to_uint (length (bytes_of_string s)))
            ∧ ParseUserCSR req
              = (req, Some ("failed to decode 'csr': " +:+ d
                            +:+ " bytes of trailing data after PEM block"))).
Proof.
  intros Hcsr Hs Hdec.
  assert (rest ≠ [] →
          ∃ d, NilEmpty.uint_of_string d = Some (Nat.to_uint (length rest))
               ∧ ParseUserCSR req
                 = (req, Some ("failed to decode 'csr': " +:+ d
                               +:+ " bytes of trailing data after PEM block")))
    as Htrail.
  { intros Hrest. destruct (trailingDataError_decimal (length rest)) as (d & Hd & Hmsg).
    exists d. split; [done|]. rewrite <- Hmsg.
    rewrite (ParseUserCSR_text req s Hcsr Hs), Hdec.
    rewrite bool_decide_eq_true_2; [done|]. destruct rest; [done|cbn; lia]. }
  split; [done|]. intros ->.
  pose proof (pem_Decode_None (bytes_of_string s)) as Hnone.
  rewrite Hdec in Hnone. cbn [fst snd] in Hnone. specialize (Hnone eq_refl). subst rest.
  split; [done|]. apply Htrail. by apply bytes_of_string_nonempty.
Qed.

(** C4: when the ['csr'] entry is a string that decodes to one PEM block
    with nothing after it and the bytes of the block parse as a
    certificate request, [ParseUserCSR] returns no error and [ParsedCSR]
    is the parsed request. *)
Theorem ParseUserCSR_ok (req : CIEPSRequest) (s : string) (block : pem.Block)
    (csr : x509_CertificateRequest) :
  mapIndex (UserRequestKV req) "csr" = Some (VString s) →
  pem.Decode (bytes_of_string s) = (Some block, []) →
  ParseCertificateRequest (pem.Bytes block) = inl csr →
  ParseUserCSR req = (setParsedCSR (Some csr) req, None)
  ∧ ParsedCSR (ParseUserCSR req).1 = Some csr.
Proof.
  intros Hcsr Hdec Hparse.
  assert (s ≠ "") as Hs by (by intros ->).
  rewrite (ParseUserCSR_text req s Hcsr Hs), Hdec. cbn [length].
  rewrite bool_decide_eq_false_2 by lia. by rewrite Hparse.
Qed.

(** C5: [MarshalCertificate] returns an error exactly when there is no
    parsed certificate or its raw bytes are empty; otherwise it returns
    no error and the [Certificate] field of the response is one PEM block
    of type [CERTIFICATE]: the BEGIN line, a body without a dash that is
    the base64 text of the raw bytes in lines of 64 characters and that
    base64 decoding turns back into the raw bytes, and the END line. *)
Theorem MarshalCertificate_spec (c : CIEPSResponse) :
  ((∃ e, (MarshalCertificate c).2 = Some e)
   ↔ ParsedCertificate c = None
     ∨ (∃ cert, ParsedCertificate c = Some cert ∧ Raw cert = []))
  ∧ (∀ cert, ParsedCertificate c = Some cert → Raw cert ≠ [] →
     MarshalCertificate c
     = (setCertificate (string_of_bytes (certificatePEM (Raw cert))) c, None)
     ∧ (MarshalCertificate c).2 = None
     ∧ ∃ body,
         bytes_of_string (Certificate (MarshalCertificate c).1)
         = bytes_of_string "-----BEGIN CERTIFICATE-----" ++ [x0a]
           ++ body ++ bytes_of_string "-----END CERTIFICATE-----" ++ [x0a]
         ∧ body = pem.lineBreaker 0 (base64.Encode (Raw cert))
         ∧ Forall (λ b, b ≠ x2d) body
         ∧ base64.Decode body = Some (Raw cert)).
Proof.
  split.
  - split.
    + intros [e He]. destruct (ParsedCertificate c) as [cert|] eqn:Hc; [|by left].
      right. exists cert. split; [done|].
      destruct (decide (Raw cert = [])) as [|Hraw]; [done|].
      by rewrite (MarshalCertificate_ok c cert Hc Hraw) in He.
    + intros Habs. rewrite (MarshalCertificate_absent c Habs). by eexists.
  - intros cert Hc Hraw. rewrite (MarshalCertificate_ok c cert Hc Hraw).
    split_and!; [done|done|].
    exists (pem.lineBreaker 0 (base64.Encode (Raw cert))).
    destruct (certificate_body (Raw cert)) as [Hdash Hdec].
    split_and!; [|done|done|done].
    cbn [fst setCertificate Certificate]. by rewrite bytes_of_string_of_bytes.
Qed.

(** C6: the round trip.  For a response whose parsed certificate has raw
    bytes, [MarshalCertificate] succeeds, and decoding the [Certificate]
    text it has set gives one block of type [CERTIFICATE], without
    headers, with exactly the raw bytes, and nothing left over. *)
Theorem MarshalCertificate_roundtrip (c : CIEPSResponse) (cert : x509_Certificate) :
  ParsedCertificate c = Some cert → Raw cert ≠ [] →
  ∃ c', MarshalCertificate c = (c', None)
        ∧ pem.Decode (bytes_of_string (Certificate c'))
          = (Some {| pem.Type_ := "CERTIFICATE"; pem.Headers := ∅;
                     pem.Bytes := Raw cert |}, []).
Proof.
  intros Hc Hraw. eexists. split; [by apply MarshalCertificate_ok|].
  cbn [setCertificate Certificate].
  rewrite bytes_of_string_of_bytes, <- pem_EncodeToMemory_certificate.
  apply Decode_EncodeToMemory; [| |done]; intros Hd; vm_compute in Hd; not_elem_absurd Hd.
Qed.

(** C8: [ParseUserCSR] changes no field but [ParsedCSR], and when it
    returns an error the request is as it was. *)
Theorem ParseUserCSR_frame (req : CIEPSRequest) :
  let req' := (ParseUserCSR req).1 in
  Version req' = Version req
  ∧ UUID req' = UUID req
  ∧ Sync req' = Sync req
  ∧ UserRequestKV req' = UserRequestKV req
  ∧ IdentityRequestKV req' = IdentityRequestKV req
  ∧ ACMERequestKV req' = ACMERequestKV req
  ∧ VaultRequestKV req' = VaultRequestKV req
  ∧ ((ParseUserCSR req).2 ≠ None → req' = req).
Proof.
  destruct (ParseUserCSR_shape req) as [[e ->]|[csr ->]]; cbn; by split_and!.
Qed.

(** C10: [MarshalCertificate] changes no field but [Certificate], and
    when it returns an error the response is as it was. *)
Theorem MarshalCertificate_frame (c : CIEPSResponse) :
  let c' := (MarshalCertificate c).1 in
  UUID' c' = UUID' c
  ∧ Error c' = Error c
  ∧ Warnings c' = Warnings c
  ∧ ParsedCertificate c' = ParsedCertificate c
  ∧ IssuerRef c' = IssuerRef c
  ∧ StoreCert c' = StoreCert c
  ∧ GenerateLease c' = GenerateLease c
  ∧ ((MarshalCertificate c).2 ≠ None → c' = c).
Proof.
  unfold MarshalCertificate.
  destruct (ParsedCertificate c) as [cert|] eqn:Hc; [|by split_and!].
  repeat case_bool_decide; cbn; by split_and!.
Qed.

End method_properties.
(** ** The wire form *)
Section wire_properties.
Context `{GoExtern}.

(** An error that was met stays the result of the decoding. *)
Lemma decodeMembers_error_kept {S : Type} (step : string → json → S → S * option error)
    (members : list (string * json)) (acc : S * option error) :
  is_Some acc.2 →
  is_Some (foldl (λ acc kv,
                    let '(s', e) := step kv.1 kv.2 acc.1 in
                    (s', firstError [acc.2; e])) acc members).2.
Proof.
  revert acc. induction members as [|kv members IH]; intros acc Hacc; [done|].
  cbn [foldl]. apply IH. destruct (step kv.1 kv.2 acc.1) as [s' e].
  destruct Hacc as [e0 He0]. cbn [snd]. rewrite He0. by eexists.
Qed.

(** A member that is an error whatever the struct holds makes the
    decoding of the object an error. *)
Lemma decodeMembers_error {S : Type} (step : string → json → S → S * option error)
    (members : list (string * json)) (key : string) (v : json) (s : S) :
  (key, v) ∈ members → (∀ s, is_Some (step key v s).2) →
  is_Some (decodeMembers step members s).2.
Proof.
  intros Hin Hstep. unfold decodeMembers. generalize (s, @None error).
  induction members as [|kv members IH]; intros acc; [by apply elem_of_nil in Hin|].
  cbn [foldl]. apply elem_of_cons in Hin as [<-|Hin]; [|by apply IH].
  apply decodeMembers_error_kept. cbn [fst snd].
  specialize (Hstep acc.1). destruct (step key v acc.1) as [s' e]. cbn [snd] in *.
  destruct Hstep as [e' ->]. destruct acc.2; by eexists.
Qed.

(** What no member touches is as it was after the decoding. *)
Lemma decodeMembers_preserves {S A : Type} (get : S → A)
    (step : string → json → S → S * option error)
    (members : list (string * json)) (s : S) :
  (∀ key v s, get (step key v s).1 = get s) →
  get (decodeMembers step members s).1 = get s.
Proof.
  intros Hstep. unfold decodeMembers.
  cut (∀ acc : S * option error,
         get (foldl (λ acc kv,
                       let '(s', e) := step kv.1 kv.2 acc.1 in
                       (s', firstError [acc.2; e])) acc members).1 = get acc.1).
  { intros Hacc. apply (Hacc (s, None)). }
  induction members as [|kv members IH]; intros acc; [done|].
  cbn [foldl]. rewrite IH. specialize (Hstep kv.1 kv.2 acc.1).
  by destruct (step kv.1 kv.2 acc.1).
Qed.

Lemma decodeStruct_preserves {S A : Type} (get : S → A) (goType : string)
    (step : string → json → S → S * option error) (v : json) (s : S) :
  (∀ key v s, get (step key v s).1 = get s) →
  get (decodeStruct goType step v s).1 = get s.
Proof.
  intros Hstep. destruct v; try done. by apply decodeMembers_preserves.
Qed.

Lemma responseMember_unknown (key : string) (v : json) (c : CIEPSResponse) :
  key ∉ responseFields → (responseMember true key v c).2 = Some (unknownField key).
Proof.
  intros Hkey. unfold responseMember. cbn [snd]. unfold checkKnown.
  by rewrite bool_decide_eq_false_2.
Qed.

(** C1: a response whose JSON object has a member that is none of
    [request_uuid], [error], [warnings], [certificate], [issuer_ref],
    [store_certificate], [generate_lease] does not decode: the decoder
    returns an error, it does not skip the member. *)
Theorem decodeResponse_unknown_field (members : list (string * json))
    (key : string) (v : json) :
  (key, v) ∈ members → key ∉ responseFields →
  ∃ e, (decodeResponse (JObject members)).2 = Some e.
Proof.
  intros Hin Hkey. unfold decodeResponse, unmarshalResponse. cbn [decodeStruct].
  apply (decodeMembers_error _ members key v); [done|].
  intros c. rewrite responseMember_unknown by done. by eexists.
Qed.

Lemma requestMembers_names (req : CIEPSRequest) :
  (requestMembers req).*1 ⊆ requestFields.
Proof.
  unfold requestMembers, omitEmptyMap, requestFields.
  repeat case_bool_decide; cbn; intros k Hk;
    repeat (apply elem_of_cons in Hk as [->|Hk]; [by repeat constructor|]);
    by apply elem_of_nil in Hk.
Qed.

Lemma responseMembers_names (c : CIEPSResponse) :
  (responseMembers c).*1 ⊆ responseFields.
Proof.
  unfold responseMembers, omitEmptyString, responseFields.
  repeat case_bool_decide; cbn; intros k Hk;
    repeat (apply elem_of_cons in Hk as [->|Hk]; [by repeat constructor|]);
    by apply elem_of_nil in Hk.
Qed.

(** C7: the parsed objects are not on the wire.  The encoded request and
    the encoded response are the same whatever [ParsedCSR] and
    [ParsedCertificate] hold, the names of their members are the declared
    ones, which are neither the names of the two fields nor their tag
    [-]; and decoding a JSON text into a request or a response leaves
    the two fields as they were, [nil] in a fresh struct. *)
Theorem parsed_objects_not_on_the_wire :
  (∀ (req : CIEPSRequest) csr, marshalRequest (setParsedCSR csr req) = marshalRequest req)
  ∧ (∀ (c : CIEPSResponse) cert,
       marshalResponse (setParsedCertificate cert c) = marshalResponse c)
  ∧ (∀ (req : CIEPSRequest) name,
       name ∈ (requestMembers req).*1 →
       name ∈ requestFields ∧ name ≠ "ParsedCSR" ∧ name ≠ "-")
  ∧ (∀ (c : CIEPSResponse) name,
       name ∈ (responseMembers c).*1 →
       name ∈ responseFields ∧ name ≠ "ParsedCertificate" ∧ name ≠ "-")
  ∧ (∀ v (req : CIEPSRequest), ParsedCSR (unmarshalRequest v req).1 = ParsedCSR req)
  ∧ (∀ v (c : CIEPSResponse),
       ParsedCertificate (unmarshalResponse v c).1 = ParsedCertificate c)
  ∧ (∀ v, ParsedCSR (decodeRequest v).1 = None)
  ∧ (∀ v, ParsedCertificate (decodeResponse v).1 = None).
Proof.
  assert (∀ v (req : CIEPSRequest), ParsedCSR (unmarshalRequest v req).1 = ParsedCSR req)
    as Hreq by (intros v req; by apply decodeStruct_preserves).
  assert (∀ v (c : CIEPSResponse),
            ParsedCertificate (unmarshalResponse v c).1 = ParsedCertificate c)
    as Hresp by (intros v c; by apply decodeStruct_preserves).
  split_and!; try done.
  - intros req name Hname%requestMembers_names. split; [done|].
    split; intros ->; unfold requestFields in Hname;
      repeat (apply elem_of_cons in Hname as [Hname|Hname]; [discriminate Hname|]);
      by apply elem_of_nil in Hname.
  - intros c name Hname%responseMembers_names. split; [done|].
    split; intros ->; unfold responseFields in Hname;
      repeat (apply elem_of_cons in Hname as [Hname|Hname]; [discriminate Hname|]);
      by apply elem_of_nil in Hname.
  - intros v. unfold decodeRequest. by rewrite Hreq.
  - intros v. unfold decodeResponse. by rewrite Hresp.
Qed.

End wire_properties.

(** ** Dispatch *)
Section dispatch_properties.
Context `{GoExtern}.
Context (service : node → CIEPSRequest → CIEPSResponse).

(** What the outcome handler does to the certificate, it does on its own
    node. *)
Lemma handleResponse_effects (n : node) (req : CIEPSRequest) (resp : CIEPSResponse) :
  Forall (effectOf n) (handleResponse n req resp).1.
Proof.
  unfold handleResponse. destruct (negb _); [constructor|].
  destruct (decodeCertificate (Certificate resp)); [|constructor].
  cbn [fst]. destruct (StoreCert resp), (GenerateLease resp); by repeat constructor.
Qed.

(** C9: on a performance standby whose response sets [StoreCert], the
    standby sends the request, forwards the operation under the request
    ID, and the active node sends the request again: the same request ID
    and every other field as in the request of the standby, but for the
    standby flag, which is off.  What follows is the handling of the
    response that the active node gets: when it carries an error the
    issuance fails with it; when its certificate decodes, the certificate
    is signed on the active node, stored there under the issuer and the
    request ID when [StoreCert] is set, leased there when [GenerateLease]
    is set, and returned.  No event signs, stores or leases on the
    standby, and the response of the standby is used for nothing but its
    flag: another response with the flag set gives the same events and
    the same result. *)
Theorem standby_forwards_store (req : CIEPSRequest) :
  IsPerfStandby (VaultRequestKV req) = true →
  StoreCert (service Standby req) = true →
  let req' := setIsPerfStandby false req in
  let handled := handleResponse Active req' (service Active req') in
  let resp' := service Active req' in
  let sent := [SendToService Standby req; ForwardToActive (UUID req);
               SendToService Active req'] in
  issue service req
  = (SendToService Standby req :: ForwardToActive (UUID req)
       :: SendToService Active req' :: handled.1,
     handled.2)
  ∧ UUID req' = UUID req
  ∧ UserRequestKV req' = UserRequestKV req
  ∧ IdentityRequestKV req' = IdentityRequestKV req
  ∧ ACMERequestKV req' = ACMERequestKV req
  ∧ Forall (λ e, ¬ effectOf Standby e) (issue service req).1
  ∧ Version req' = Version req
  ∧ Sync req' = Sync req
  ∧ ParsedCSR req' = ParsedCSR req
  ∧ VaultRequestKV req'
    = {| PolicyName := PolicyName (VaultRequestKV req);
         Mount := Mount (VaultRequestKV req);
         Namespace := Namespace (VaultRequestKV req);
         IsPerfStandby := false;
         IsPRSecondary := IsPRSecondary (VaultRequestKV req);
         IssuanceMode := IssuanceMode (VaultRequestKV req);
         GeneratedKey := GeneratedKey (VaultRequestKV req);
         IssuerName := IssuerName (VaultRequestKV req);
         IssuerID := IssuerID (VaultRequestKV req);
         IssuerCert := IssuerCert (VaultRequestKV req);
         Config := Config (VaultRequestKV req) |}
  ∧ (∀ service' : node → CIEPSRequest → CIEPSResponse,
       (∀ r, service' Active r = service Active r) →
       StoreCert (service' Standby req) = true →
       issue service' req = issue service req)
  ∧ (Error resp' ≠ "" →
     issue service req = (sent, Failed (Error resp') (Warnings resp')))
  ∧ (∀ block rest cert,
       Error resp' = "" →
       pem.Decode (bytes_of_string (Certificate resp')) = (Some block, rest) →
       ParseCertificate (pem.Bytes block) = inl cert →
       issue service req
       = (sent ++ [SignCertificate Active (Certificate resp')]
            ++ (if StoreCert resp'
                then [StoreCertificate Active (IssuerRef resp') (UUID req)] else [])
            ++ (if GenerateLease resp' then [CreateLease Active (UUID req)] else []),
          Issued (Certificate resp') (IssuerRef resp') (Warnings resp'))).
Proof.
  intros Hstandby Hstore req' handled resp' sent.
  assert (∀ service' : node → CIEPSRequest → CIEPSResponse,
            StoreCert (service' Standby req) = true →
            issue service' req
            = (sent ++ (handleResponse Active req' (service' Active req')).1,
               (handleResponse Active req' (service' Active req')).2)) as Hany.
  { intros service' Hstore'. unfold issue, issueLocally.
    rewrite Hstandby, Hstore'. fold req'.
    by destruct (handleResponse Active req' (service' Active req')). }
  pose proof (Hany service Hstore) as Hissue. fold handled in Hissue.
  split_and!; try done.
  - rewrite Hissue. cbn [fst]. unfold sent. cbn [app].
    repeat (constructor; [by intros []|]).
    eapply Forall_impl; [apply handleResponse_effects|].
    intros e He Hs. destruct e; cbn in *; congruence.
  - intros service' Hactive Hstore'.
    by rewrite (Hany service' Hstore'), Hissue, Hactive.
  - intros Herror. rewrite Hissue. unfold handled, handleResponse. fold resp'.
    rewrite bool_decide_eq_false_2 by done. cbn [negb fst snd].
    by rewrite app_nil_r.
  - intros block rest cert Herror Hdecode Hparse.
    rewrite Hissue. unfold handled, handleResponse, decodeCertificate. fold resp'.
    rewrite bool_decide_eq_true_2 by done. cbn [negb].
    rewrite Hdecode, Hparse. done.
Qed.

End dispatch_properties.
(** ** The statements at concrete objects *)

Lemma decodeResponse_unknown_field_witness :
  let extra : string * json := ("policy_override", JBool true) in
  let members := [("request_uuid", JString "6f1c"); ("certificate", JString ""); extra] in
  extra ∈ members
  ∧ ("policy_override" ∉ responseFields)
  ∧ ∃ e, (decodeResponse (H := exampleExtern) (JObject members)).2 = Some e.
Proof.
  intros extra members.
  assert (extra ∈ members) as Hin by (by repeat constructor).
  assert ("policy_override" ∉ responseFields) as Hkey
    by (intros Hd; unfold responseFields in Hd; not_elem_absurd Hd).
  split_and!; [done|done|].
  exact (decodeResponse_unknown_field (H := exampleExtern) members _ _ Hin Hkey).
Defined.

Lemma ParseUserCSR_csr_field_errors_witness :
  ParseUserCSR (exampleRequest None)
  = (exampleRequest None, Some "missing expected 'csr' attribute on the request")
  ∧ ParseUserCSR (exampleRequest (Some {["csr" := VInt 7]}))
    = (exampleRequest (Some {["csr" := VInt 7]}),
       Some "unexpected type of 'csr' attribute: int")
  ∧ ParseUserCSR (exampleRequest (Some {["csr" := VString ""]}))
    = (exampleRequest (Some {["csr" := VString ""]}),
       Some "unexpectedly empty 'csr' attribute on the request").
Proof.
  split_and!.
  - apply (proj1 (ParseUserCSR_csr_field_errors (H := exampleExtern) (exampleRequest None))).
    reflexivity.
  - apply (proj1 (proj2 (ParseUserCSR_csr_field_errors (H := exampleExtern)
                           (exampleRequest (Some {["csr" := VInt 7]})))) (VInt 7));
      [reflexivity|].
    intros s. discriminate.
  - apply (proj1 (proj2 (proj2 (ParseUserCSR_csr_field_errors (H := exampleExtern)
                                  (exampleRequest (Some {["csr" := VString ""]})))))).
    reflexivity.
Defined.

Lemma ParseUserCSR_pem_errors_witness :
  let s := exampleCSR +:+ "-----BEGIN" in
  let req := exampleRequest (Some {["csr" := VString s]}) in
  let block := {| pem.Type_ := "CERTIFICATE REQUEST"; pem.Headers := ∅;
                  pem.Bytes := [x30; x03; x02; x01; x00] |} in
  let rest := bytes_of_string "-----BEGIN" in
  let s' := "MAMCAQA=" in
  let req' := exampleRequest (Some {["csr" := VString s']}) in
  mapIndex (UserRequestKV req) "csr" = Some (VString s)
  ∧ s ≠ ""
  ∧ pem.Decode (H := exampleExtern) (bytes_of_string s) = (Some block, rest)
  ∧ ParseUserCSR req
    = (req, Some "failed to decode 'csr': 10 bytes of trailing data after PEM block")
  ∧ pem.Decode (H := exampleExtern) (bytes_of_string s') = (None, bytes_of_string s')
  ∧ ParseUserCSR req'
    = (req', Some "failed to decode 'csr': 8 bytes of trailing data after PEM block").
Proof.
  intros s req block rest s' req'.
  assert (mapIndex (UserRequestKV req) "csr" = Some (VString s)) as Hcsr by reflexivity.
  assert (s ≠ "") as Hs by discriminate.
  assert (pem.Decode (H := exampleExtern) (bytes_of_string s) = (Some block, rest))
    as Hdec by (vm_compute; reflexivity).
  assert (mapIndex (UserRequestKV req') "csr" = Some (VString s')) as Hcsr' by reflexivity.
  assert (s' ≠ "") as Hs' by discriminate.
  assert (pem.Decode (H := exampleExtern) (bytes_of_string s') = (None, bytes_of_string s'))
    as Hdec' by (vm_compute; reflexivity).
  split_and!; [done|done|done| |done|].
  - destruct (proj1 (ParseUserCSR_pem_errors (H := exampleExtern) req s (Some block) rest
                       Hcsr Hs Hdec)) as (d & Hd & ->); [discriminate|].
    apply decimal_numeral in Hd. subst d. reflexivity.
  - destruct (proj2 (ParseUserCSR_pem_errors (H := exampleExtern) req' s' None _
                       Hcsr' Hs' Hdec') eq_refl) as (_ & d & Hd & ->).
    apply decimal_numeral in Hd. subst d. reflexivity.
Defined.

Lemma ParseUserCSR_ok_witness :
  let req := exampleRequest (Some {["csr" := VString exampleCSR]}) in
  let block := {| pem.Type_ := "CERTIFICATE REQUEST"; pem.Headers := ∅;
                  pem.Bytes := [x30; x03; x02; x01; x00] |} in
  mapIndex (UserRequestKV req) "csr" = Some (VString exampleCSR)
  ∧ pem.Decode (H := exampleExtern) (bytes_of_string exampleCSR) = (Some block, [])
  ∧ ParseCertificateRequest (GoExtern := exampleExtern) (pem.Bytes block)
    = inl [x30; x03; x02; x01; x00]
  ∧ ParsedCSR (ParseUserCSR req).1 = Some [x30; x03; x02; x01; x00].
Proof.
  intros req block.
  assert (mapIndex (UserRequestKV req) "csr" = Some (VString exampleCSR)) as Hcsr
    by reflexivity.
  assert (pem.Decode (H := exampleExtern) (bytes_of_string exampleCSR) = (Some block, []))
    as Hdec by (vm_compute; reflexivity).
  assert (ParseCertificateRequest (GoExtern := exampleExtern) (pem.Bytes block)
          = inl [x30; x03; x02; x01; x00]) as Hparse by reflexivity.
  split_and!; [done|done|done|].
  apply (ParseUserCSR_ok (H := exampleExtern) req exampleCSR block _ Hcsr Hdec Hparse).
Defined.

Lemma MarshalCertificate_spec_witness :
  let c := exampleResponse (Some [x30; x03; x02; x01; x00]) true in
  (MarshalCertificate c).2 = None
  ∧ Certificate (MarshalCertificate c).1
    = string_of_bytes
        (bytes_of_string "-----BEGIN CERTIFICATE-----" ++ [x0a]
         ++ bytes_of_string "MAMCAQA=" ++ [x0a]
         ++ bytes_of_string "-----END CERTIFICATE-----" ++ [x0a])
  ∧ ∃ e, (MarshalCertificate (exampleResponse (Some []) true)).2 = Some e.
Proof.
  intros c.
  destruct (proj2 (MarshalCertificate_spec (H := exampleExtern) c) [x30; x03; x02; x01; x00])
    as (Hc & Hok & _); [reflexivity|discriminate|].
  split_and!; [done| |].
  - rewrite Hc. vm_compute. reflexivity.
  - apply (MarshalCertificate_spec (H := exampleExtern) (exampleResponse (Some []) true)).
    right. by exists [].
Defined.

Lemma MarshalCertificate_roundtrip_witness :
  let raw := [x30; x03; x02; x01; x00] in
  let c := exampleResponse (Some raw) true in
  ParsedCertificate c = Some raw
  ∧ Raw (GoExtern := exampleExtern) raw ≠ []
  ∧ ∃ c', MarshalCertificate c = (c', None)
          ∧ pem.Decode (H := exampleExtern) (bytes_of_string (Certificate c'))
            = (Some {| pem.Type_ := "CERTIFICATE"; pem.Headers := ∅;
                       pem.Bytes := raw |}, []).
Proof.
  intros raw c.
  assert (ParsedCertificate c = Some raw) as Hc by reflexivity.
  assert (Raw (GoExtern := exampleExtern) raw ≠ []) as Hraw by discriminate.
  split_and!; [done|done|].
  exact (MarshalCertificate_roundtrip (H := exampleExtern) c raw Hc Hraw).
Defined.

(** The external service of the example answers the standby and the
    active node with two certificates to store: the one of the active
    node is signed, stored and leased there and returned, with its
    issuer and its warnings; the one of the standby appears nowhere. *)
Lemma standby_forwards_store_witness :
  let req := exampleRequest None in
  let requestID := "6f1c8a52-0b7e-4c55-9d3a-2f4e1b7a9c10" in
  let certificate :=
    string_of_bytes
      (bytes_of_string "-----BEGIN CERTIFICATE-----" ++ [x0a]
       ++ bytes_of_string "MAMCAQA=" ++ [x0a]
       ++ bytes_of_string "-----END CERTIFICATE-----" ++ [x0a]) in
  IsPerfStandby (VaultRequestKV req) = true
  ∧ StoreCert (exampleService Standby req) = true
  ∧ Certificate (exampleService Standby req) ≠ certificate
  ∧ issue exampleService req
    = ([SendToService Standby req;
        ForwardToActive requestID;
        SendToService Active
          {| Version := 1; UUID := requestID; Sync := true;
             UserRequestKV := None; IdentityRequestKV := None; ACMERequestKV := None;
             VaultRequestKV :=
               {| PolicyName := "web"; Mount := "pki/"; Namespace := "root";
                  IsPerfStandby := false; IsPRSecondary := false;
                  IssuanceMode := SignCIEPSMode; GeneratedKey := false;
                  IssuerName := "default"; IssuerID := "a1"; IssuerCert := "";
                  Config := {| AIAValues := None; LeafNotAfterBehavior := "err";
                               MountDefaultTTL := "768h"; MountMaxTTL := "768h" |} |};
             ParsedCSR := None |};
        SignCertificate Active certificate;
        StoreCertificate Active "a1" requestID;
        CreateLease Active requestID],
       Issued certificate "a1" ["ttl capped"])
  ∧ Forall (λ e, ¬ effectOf Standby e) (issue exampleService req).1.
Proof.
  intros req requestID certificate.
  assert (IsPerfStandby (VaultRequestKV req) = true) as Hstandby by reflexivity.
  assert (StoreCert (exampleService Standby req) = true) as Hstore by reflexivity.
  destruct (standby_forwards_store (H := exampleExtern) exampleService req Hstandby Hstore)
    as (_ & _ & _ & _ & _ & Hnone & _ & _ & _ & _ & _ & _ & Hissued).
  split_and!; [done|done|discriminate| |exact Hnone].
  rewrite (Hissued {| pem.Type_ := "CERTIFICATE"; pem.Headers := ∅;
                      pem.Bytes := [x30; x03; x02; x01; x00] |}
                   [] [x30; x03; x02; x01; x00]);
    [reflexivity|reflexivity|vm_compute; reflexivity|reflexivity].
Defined.

(** ** Examples *)

Example base64_Encode_foobar :
  base64.Encode (bytes_of_string "foobar") = bytes_of_string "Zm9vYmFy".
Proof. reflexivity. Qed.

Example base64_Encode_fooba :
  base64.Encode (bytes_of_string "fooba") = bytes_of_string "Zm9vYmE=".
Proof. reflexivity. Qed.

Example base64_Encode_foob :
  base64.Encode (bytes_of_string "foob") = bytes_of_string "Zm9vYg==".
Proof. reflexivity. Qed.

(** New lines inside the text and around the padding are skipped. *)
Example base64_Decode_foob :
  base64.Decode [x5a; x6d; x0a; x39; x76; x59; x67; x3d; x0d; x0a; x3d; x0a]
  = Some (bytes_of_string "foob").
Proof. reflexivity. Qed.

Example base64_Decode_garbage :
  base64.Decode (bytes_of_string "Zm9vYg==Zm9v") = None.
Proof. reflexivity. Qed.

(** A text without PEM data is left over as a whole, and [ParseUserCSR]
    reports its length as trailing data. *)
Example ParseUserCSR_no_pem :
  ParseUserCSR (exampleRequest (Some {["csr" := VString "not a PEM text"]}))
  = (exampleRequest (Some {["csr" := VString "not a PEM text"]}),
     Some "failed to decode 'csr': 14 bytes of trailing data after PEM block").
Proof. vm_compute. reflexivity. Qed.

(** Two blocks one after the other: the second one is trailing data. *)
Example ParseUserCSR_two_blocks :
  (ParseUserCSR (exampleRequest (Some {["csr" := VString (exampleCSR +:+ exampleCSR)]}))).2
  = Some "failed to decode 'csr': 79 bytes of trailing data after PEM block".
Proof. vm_compute. reflexivity. Qed.

(** A response with the declared members decodes; the same response with
    one more member does not. *)
Example decodeResponse_declared :
  decodeResponse (H := exampleExtern)
    (JObject [("request_uuid", JString "6f1c"); ("certificate", JString "");
              ("issuer_ref", JString "a1"); ("store_certificate", JBool true);
              ("generate_lease", JBool false)])
  = ({| UUID' := "6f1c"; Error := ""; Warnings := []; Certificate := "";
        ParsedCertificate := None; IssuerRef := "a1"; StoreCert := true;
        GenerateLease := false |}, None).
Proof. vm_compute. reflexivity. Qed.

Example decodeResponse_one_more :
  (decodeResponse (H := exampleExtern)
     (JObject [("request_uuid", JString "6f1c"); ("certificate", JString "");
               ("issuer_ref", JString "a1"); ("store_certificate", JBool true);
               ("generate_lease", JBool false); ("ttl", JString "1h")])).2
  = Some "json: unknown field ttl".
Proof. vm_compute. reflexivity. Qed.

(** The bytes of valid UTF-8 encodings of one to four bytes are written
    as they are. *)
Example encodeString_valid :
  let s := string_of_bytes [x61; xc3; xa9; xe2; x82; xac; xf0; x9f; x98; x80] in
  encodeString s = s.
Proof. reflexivity. Qed.

(** A byte at which no valid encoding starts is written as U+FFFD: a
    first byte without its continuation, a surrogate, an overlong form,
    an encoding cut short by the end of the string. *)
Example encodeString_invalid :
  encodeString (string_of_bytes [xc3; x28; xed; xa0; x80; xc0; x80; xe2; x82])
  = string_of_bytes
      ([xef; xbf; xbd] ++ [x28]
       ++ [xef; xbf; xbd] ++ [xef; xbf; xbd] ++ [xef; xbf; xbd]
       ++ [xef; xbf; xbd] ++ [xef; xbf; xbd]
       ++ [xef; xbf; xbd] ++ [xef; xbf; xbd]).
Proof. reflexivity. Qed.

(** Two responses whose certificates differ in such a byte have one
    wire form. *)
Example marshalResponse_invalid_utf8 :
  let c1 := setCertificate (string_of_bytes [xff]) (exampleResponse None true) in
  let c2 := setCertificate (string_of_bytes [xfe]) (exampleResponse None true) in
  Certificate c1 ≠ Certificate c2 ∧ marshalResponse c1 = marshalResponse c2.
Proof. split; [discriminate|reflexivity]. Qed.
(** ** More on [ParseUserCSR] *)
Section more_on_ParseUserCSR.
Context `{GoExtern}.

(** The method on a text that holds a block written by [pem.Encode],
    after lines of text without a dash and before other bytes. *)
Lemma ParseUserCSR_framed (req : CIEPSRequest) (lead extra : list byte)
    (ty : string) (der : list byte) :
  lead = [] ∨ (∃ pre, lead = pre ++ [x0a] ∧ Forall (λ c, c ≠ x2d) pre) →
  x0a ∉ bytes_of_string ty → der ≠ [] →
  mapIndex (UserRequestKV req) "csr"
  = Some (VString (string_of_bytes
                     (lead ++ pem.EncodeToMemory {| pem.Type_ := ty; pem.Headers := ∅;
                                                    pem.Bytes := der |} ++ extra))) →
  ParseUserCSR req
  = if bool_decide (0 < length extra)
    then (req, Some (trailingDataError (length extra)))
    else csrVerdict req der.
Proof.
  intros Hlead Hty Hder Hcsr.
  rewrite (ParseUserCSR_text req _ Hcsr).
  - by rewrite bytes_of_string_of_bytes, Decode_framed.
  - intros Hempty. apply (f_equal bytes_of_string) in Hempty.
    rewrite bytes_of_string_of_bytes in Hempty. cbn in Hempty.
    apply app_eq_nil in Hempty as [_ Hempty]. apply app_eq_nil in Hempty as [Hempty _].
    by apply (pem_EncodeToMemory_nonempty ty der).
Qed.

(** X1: [ParseUserCSR] returns [nil] exactly when the ['csr'] entry is a
    string that decodes to a PEM block with nothing left over whose bytes
    the parser accepts; and when it returns [nil], [ParsedCSR] is not
    [nil]. *)
Theorem ParseUserCSR_nil_iff (req : CIEPSRequest) :
  ((ParseUserCSR req).2 = None
   ↔ ∃ s block csr,
       mapIndex (UserRequestKV req) "csr" = Some (VString s)
       ∧ pem.Decode (bytes_of_string s) = (Some block, [])
       ∧ ParseCertificateRequest (pem.Bytes block) = inl csr)
  ∧ ((ParseUserCSR req).2 = None → ParsedCSR (ParseUserCSR req).1 ≠ None).
Proof.
  split; [split|].
  - unfold ParseUserCSR.
    destruct (mapIndex (UserRequestKV req) "csr") as [v|]; [|done].
    destruct v; try done. case_bool_decide; [done|].
    destruct (pem.Decode (bytes_of_string s)) as [block rest] eqn:Hdec.
    case_bool_decide as Hrest; [done|].
    destruct block as [block|]; [|done].
    destruct (ParseCertificateRequest (pem.Bytes block)) as [csr|err] eqn:Hparse; [|done].
    intros _. exists s, block, csr. split_and!; [done| |done].
    destruct rest; [done|]. cbn in Hrest. lia.
  - intros (s & block & csr & Hcsr & Hdec & Hparse).
    assert (s ≠ "") as Hs by (by intros ->).
    rewrite (ParseUserCSR_text req s Hcsr Hs), Hdec. cbn [length].
    rewrite bool_decide_eq_false_2 by lia. by rewrite Hparse.
  - destruct (ParseUserCSR_shape req) as [[e ->]|[csr ->]]; done.
Qed.

(** X2: when the block decodes with nothing left over and the parser
    rejects its bytes, [ParseUserCSR] returns the error of the parser
    behind the words "failed to parse certificate request: " and leaves
    the request, and a [ParsedCSR] that it held, as they were. *)
Theorem ParseUserCSR_parse_error (req : CIEPSRequest) (s : string) (block : pem.Block)
    (err : error) :
  mapIndex (UserRequestKV req) "csr" = Some (VString s) →
  pem.Decode (bytes_of_string s) = (Some block, []) →
  ParseCertificateRequest (pem.Bytes block) = inr err →
  ParseUserCSR req = (req, Some ("failed to parse certificate request: " +:+ err)).
Proof.
  intros Hcsr Hdec Hparse.
  assert (s ≠ "") as Hs by (by intros ->).
  rewrite (ParseUserCSR_text req s Hcsr Hs), Hdec. cbn [length].
  rewrite bool_decide_eq_false_2 by lia. by rewrite Hparse.
Qed.

(** X3: [ParseUserCSR] does not look at the type of the PEM block.  For
    a block of any type, as [pem.Encode] writes it, the outcome is what
    the parser says about the bytes of the block. *)
Theorem ParseUserCSR_any_block_type (req : CIEPSRequest) (ty : string) (der : list byte) :
  x0a ∉ bytes_of_string ty → der ≠ [] →
  mapIndex (UserRequestKV req) "csr"
  = Some (VString (string_of_bytes
                     (pem.EncodeToMemory {| pem.Type_ := ty; pem.Headers := ∅;
                                            pem.Bytes := der |}))) →
  ParseUserCSR req = csrVerdict req der.
Proof.
  intros Hty Hder Hcsr.
  rewrite (ParseUserCSR_framed req [] [] ty der); [done|by left|done|done|].
  by rewrite app_nil_r.
Qed.

(** X4: calling [ParseUserCSR] again on the request that it returned
    gives the same request and the same error. *)
Theorem ParseUserCSR_idempotent (req : CIEPSRequest) :
  ParseUserCSR (ParseUserCSR req).1 = ParseUserCSR req.
Proof.
  destruct (ParseUserCSR_shape req) as [[e He]|[csr Hok]].
  - by rewrite He.
  - rewrite Hok. cbn [fst]. revert Hok. unfold ParseUserCSR.
    cbn [UserRequestKV setParsedCSR].
    destruct (mapIndex (UserRequestKV req) "csr") as [v|]; [|done].
    destruct v; try done. case_bool_decide; [done|].
    destruct (pem.Decode (bytes_of_string s)) as [block rest].
    case_bool_decide; [done|].
    destruct block as [block|]; [|done].
    destruct (ParseCertificateRequest (pem.Bytes block)) as [csr'|err]; [|done].
    by intros [= <-].
Qed.

(** X5: the outcome of [ParseUserCSR] depends on the ['csr'] entry of
    [UserRequestKV] alone: two requests with the same entry get the same
    error and, on success, the same [ParsedCSR], whatever their other
    entries and fields and whatever [ParsedCSR] held before. *)
Theorem ParseUserCSR_csr_entry_only (req1 req2 : CIEPSRequest) :
  mapIndex (UserRequestKV req1) "csr" = mapIndex (UserRequestKV req2) "csr" →
  (ParseUserCSR req1).2 = (ParseUserCSR req2).2
  ∧ ((ParseUserCSR req1).2 = None →
     ParsedCSR (ParseUserCSR req1).1 = ParsedCSR (ParseUserCSR req2).1).
Proof.
  intros Heq. unfold ParseUserCSR. rewrite Heq.
  destruct (mapIndex (UserRequestKV req2) "csr") as [v|]; [|done].
  destruct v; try done. case_bool_decide; [done|].
  destruct (pem.Decode (bytes_of_string s)) as [block rest].
  case_bool_decide; [done|].
  destruct block as [block|]; [|done].
  by destruct (ParseCertificateRequest (pem.Bytes block)).
Qed.

(** X6: text before the block is not an error.  Lines without a dash
    in front of a block, as [pem.Encode] writes it, are skipped, and the
    outcome is what the parser says about the bytes of the block. *)
Theorem ParseUserCSR_leading_text (req : CIEPSRequest) (pre : list byte)
    (ty : string) (der : list byte) :
  Forall (λ c, c ≠ x2d) pre →
  x0a ∉ bytes_of_string ty → der ≠ [] →
  mapIndex (UserRequestKV req) "csr"
  = Some (VString (string_of_bytes
                     ((pre ++ [x0a])
                      ++ pem.EncodeToMemory {| pem.Type_ := ty; pem.Headers := ∅;
                                               pem.Bytes := der |}))) →
  ParseUserCSR req = csrVerdict req der.
Proof.
  intros Hpre Hty Hder Hcsr.
  rewrite (ParseUserCSR_framed req (pre ++ [x0a]) [] ty der);
    [done|right; by exists pre|done|done|].
  by rewrite app_nil_r.
Qed.

(** X7: bytes after the block are always an error.  Whatever follows a
    block, as [pem.Encode] writes it (white space, a second block, any
    byte), makes [ParseUserCSR] return the error that gives the number of
    these bytes in decimal, and the parser is not asked. *)
Theorem ParseUserCSR_appended_bytes (req : CIEPSRequest) (ty : string)
    (der extra : list byte) :
  x0a ∉ bytes_of_string ty → der ≠ [] → extra ≠ [] →
  mapIndex (UserRequestKV req) "csr"
  = Some (VString (string_of_bytes
                     (pem.EncodeToMemory {| pem.Type_ := ty; pem.Headers := ∅;
                                            pem.Bytes := der |} ++ extra))) →
  ∃ d, NilEmpty.uint_of_string d = Some (Nat.to_uint (length extra))
       ∧ ParseUserCSR req
         = (req, Some ("failed to decode 'csr': " +:+ d
                       +:+ " bytes of trailing data after PEM block")).
Proof.
  intros Hty Hder Hextra Hcsr.
  rewrite (ParseUserCSR_framed req [] extra ty der); [|by left|done|done|done].
  rewrite bool_decide_eq_true_2; [|destruct extra; [done|cbn; lia]].
  destruct (trailingDataError_decimal (length extra)) as (d & Hd & ->). by exists d.
Qed.

(** X8: the return [failed to decode 'csr' PEM block] is never taken:
    when [pem.Decode] finds no block it leaves the whole text over, which
    is not empty, and the check of the trailing data comes first. *)
Theorem ParseUserCSR_never_block_error (req : CIEPSRequest) :
  (ParseUserCSR req).2 ≠ Some "failed to decode 'csr' PEM block".
Proof.
  unfold ParseUserCSR.
  destruct (mapIndex (UserRequestKV req) "csr") as [v|]; [|done].
  destruct v; try done. case_bool_decide as Hs; [done|].
  pose proof (pem_Decode_None (bytes_of_string s)) as Hnone.
  destruct (pem.Decode (bytes_of_string s)) as [block rest].
  case_bool_decide as Hrest; [done|].
  destruct block as [block|].
  - by destruct (ParseCertificateRequest (pem.Bytes block)).
  - cbn [fst snd] in Hnone. specialize (Hnone eq_refl). subst rest.
    apply bytes_of_string_nonempty in Hs. destruct (bytes_of_string s); [done|].
    cbn in Hrest. lia.
Qed.

End more_on_ParseUserCSR.

(** ** More on [MarshalCertificate] *)
Section more_on_MarshalCertificate.
Context `{GoExtern}.

Lemma not_in_CERTIFICATE (c : byte) :
  c = x0a ∨ c = x3a → c ∉ bytes_of_string "CERTIFICATE".
Proof. intros [->| ->] Hd; vm_compute in Hd; not_elem_absurd Hd. Qed.

(** X9: the return [failed to generate PEM: no body] is never taken: the
    text that [pem.EncodeToMemory] gives for the block is not empty. *)
Theorem MarshalCertificate_never_no_body (c : CIEPSResponse) :
  (MarshalCertificate c).2 ≠ Some "failed to generate PEM: no body".
Proof.
  unfold MarshalCertificate. destruct (ParsedCertificate c) as [cert|]; [|done].
  case_bool_decide; [done|]. case_bool_decide as Hlen; [|done].
  by apply nil_length_inv, pem_EncodeToMemory_nonempty in Hlen.
Qed.

(** X10: calling [MarshalCertificate] again on the response that it
    returned gives the same response and the same error; the text that
    [Certificate] held before the call does not matter. *)
Theorem MarshalCertificate_idempotent (c : CIEPSResponse) :
  MarshalCertificate (MarshalCertificate c).1 = MarshalCertificate c.
Proof.
  destruct (ParsedCertificate c) as [cert|] eqn:Hc.
  - destruct (decide (Raw cert = [])) as [Hraw|Hraw].
    + assert (MarshalCertificate c = (c, Some "no certificate present")) as Habs
        by (apply MarshalCertificate_absent; right; by exists cert).
      by rewrite Habs.
    + rewrite (MarshalCertificate_ok c cert Hc Hraw). cbn [fst].
      by rewrite (MarshalCertificate_ok _ cert).
  - assert (MarshalCertificate c = (c, Some "no certificate present")) as Habs
      by (apply MarshalCertificate_absent; by left).
    by rewrite Habs.
Qed.

(** X11: the text determines the bytes.  Two responses whose parsed
    certificates have raw bytes get the same [Certificate] text exactly
    when the raw bytes are the same. *)
Theorem MarshalCertificate_injective (c1 c2 : CIEPSResponse)
    (cert1 cert2 : x509_Certificate) :
  ParsedCertificate c1 = Some cert1 → Raw cert1 ≠ [] →
  ParsedCertificate c2 = Some cert2 → Raw cert2 ≠ [] →
  Certificate (MarshalCertificate c1).1 = Certificate (MarshalCertificate c2).1
  ↔ Raw cert1 = Raw cert2.
Proof.
  intros Hc1 Hraw1 Hc2 Hraw2.
  rewrite (MarshalCertificate_ok c1 cert1 Hc1 Hraw1), (MarshalCertificate_ok c2 cert2 Hc2 Hraw2).
  cbn [fst setCertificate Certificate]. split; [|by intros ->].
  intros Heq. apply (f_equal bytes_of_string) in Heq.
  rewrite !bytes_of_string_of_bytes, <- !pem_EncodeToMemory_certificate in Heq.
  apply (f_equal pem.Decode) in Heq.
  rewrite !Decode_EncodeToMemory in Heq by (done || (apply not_in_CERTIFICATE; auto)).
  by injection Heq.
Qed.

(** X12: the two methods one after the other.  The [Certificate] text
    that [MarshalCertificate] has set, given to [ParseUserCSR] as the
    ['csr'] entry, passes the PEM checks although its block is of type
    [CERTIFICATE], and the parser of certificate requests is given the raw
    bytes of the certificate. *)
Theorem MarshalCertificate_then_ParseUserCSR (c : CIEPSResponse) (cert : x509_Certificate)
    (req : CIEPSRequest) :
  ParsedCertificate c = Some cert → Raw cert ≠ [] →
  mapIndex (UserRequestKV req) "csr" = Some (VString (Certificate (MarshalCertificate c).1)) →
  ParseUserCSR req = csrVerdict req (Raw cert).
Proof.
  intros Hc Hraw. rewrite (MarshalCertificate_ok c cert Hc Hraw).
  cbn [fst setCertificate Certificate]. rewrite <- pem_EncodeToMemory_certificate.
  intros Hcsr.
  rewrite (ParseUserCSR_framed req [] [] "CERTIFICATE" (Raw cert));
    [done|by left|apply not_in_CERTIFICATE; auto|done|].
  by rewrite app_nil_r.
Qed.

Lemma b64char_ascii (c : byte) : b64char c = true → (Byte.to_N c < 128)%N.
Proof.
  intros Hc. apply N.ltb_lt.
  assert (implb (b64char c) (Byte.to_N c <? 128)%N = true) as Himp
    by (destruct c; vm_compute; reflexivity).
  by rewrite Hc in Himp.
Qed.

Lemma lineBreaker_lineLengths (used : nat) (b rest : list byte) :
  used ≤ 63 → Forall (λ c, c ≠ x0a) b →
  Forall (λ n, n ≤ 64) (lineLengths 0 rest) →
  Forall (λ n, n ≤ 64) (lineLengths used (pem.lineBreaker used b ++ rest)).
Proof.
  intros Hused Hb Hrest. revert used Hused.
  induction Hb as [|c b Hc Hb IH]; intros used Hused; cbn [pem.lineBreaker].
  - case_bool_decide; [|by replace used with 0 by lia].
    cbn. constructor; [lia|done].
  - case_bool_decide as Hline; cbn [app lineLengths pem.nl].
    + rewrite bool_decide_eq_false_2 by done.
      replace (S used) with (used + 1) by lia. apply IH. unfold pem.pemLineLength in Hline. lia.
    + rewrite bool_decide_eq_false_2 by done. rewrite bool_decide_eq_true_2 by done.
      constructor; [lia|]. apply IH. lia.
Qed.

(** X13: the text that [MarshalCertificate] sets is plain ASCII, and no
    line of it is longer than 64 characters. *)
Theorem MarshalCertificate_text (c : CIEPSResponse) :
  (MarshalCertificate c).2 = None →
  Forall (λ b, (Byte.to_N b < 128)%N) (bytes_of_string (Certificate (MarshalCertificate c).1))
  ∧ Forall (λ n, n ≤ 64)
      (lineLengths 0 (bytes_of_string (Certificate (MarshalCertificate c).1))).
Proof.
  intros Hok. destruct (ParsedCertificate c) as [cert|] eqn:Hc;
    [|by rewrite MarshalCertificate_absent in Hok by (by left)].
  destruct (decide (Raw cert = [])) as [Hraw|Hraw];
    [by rewrite MarshalCertificate_absent in Hok by (right; by exists cert)|].
  rewrite (MarshalCertificate_ok c cert Hc Hraw).
  cbn [fst setCertificate Certificate]. rewrite bytes_of_string_of_bytes.
  pose proof (Encode_b64char (Raw cert)) as Hchars.
  unfold certificatePEM. split.
  - repeat apply Forall_app_2.
    + by vm_compute; repeat constructor.
    + by repeat constructor.
    + apply lineBreaker_chars; [done|].
      eapply Forall_impl; [exact Hchars|]. apply b64char_ascii.
    + by vm_compute; repeat constructor.
    + by repeat constructor.
  - change (lineLengths 0 (bytes_of_string "-----BEGIN CERTIFICATE-----" ++ [x0a] ++ ?t))
      with (27 :: lineLengths 0 t).
    constructor; [lia|]. apply lineBreaker_lineLengths; [lia| |].
    + eapply Forall_impl; [exact Hchars|]. intros x Hx ->. by vm_compute in Hx.
    + by vm_compute; repeat constructor; lia.
Qed.

End more_on_MarshalCertificate.

(** ** The statements at concrete objects, continued *)

Lemma ParseUserCSR_parse_error_witness :
  let s := string_of_bytes
             (pem.EncodeToMemory {| pem.Type_ := "CERTIFICATE REQUEST"; pem.Headers := ∅;
                                    pem.Bytes := [x00; x01; x02] |}) in
  let req := exampleRequest (Some {["csr" := VString s]}) in
  let block := {| pem.Type_ := "CERTIFICATE REQUEST"; pem.Headers := ∅;
                  pem.Bytes := [x00; x01; x02] |} in
  mapIndex (UserRequestKV req) "csr" = Some (VString s)
  ∧ pem.Decode (H := exampleExtern) (bytes_of_string s) = (Some block, [])
  ∧ ParseUserCSR req
    = (req, Some "failed to parse certificate request: asn1: structure error: tags don't match").
Proof.
  intros s req block.
  assert (mapIndex (UserRequestKV req) "csr" = Some (VString s)) as Hcsr by reflexivity.
  assert (pem.Decode (H := exampleExtern) (bytes_of_string s) = (Some block, []))
    as Hdec by (vm_compute; reflexivity).
  split_and!; [done|done|].
  by apply (ParseUserCSR_parse_error (H := exampleExtern) req s block _ Hcsr Hdec).
Defined.

Lemma ParseUserCSR_any_block_type_witness :
  let der := [x30; x03; x02; x01; x00] in
  let s := string_of_bytes
             (pem.EncodeToMemory {| pem.Type_ := "RSA PRIVATE KEY"; pem.Headers := ∅;
                                    pem.Bytes := der |}) in
  let req := exampleRequest (Some {["csr" := VString s]}) in
  (x0a ∉ bytes_of_string "RSA PRIVATE KEY")
  ∧ der ≠ []
  ∧ ParseUserCSR req = (setParsedCSR (H := exampleExtern) (Some der) req, None).
Proof.
  intros der s req.
  assert (x0a ∉ bytes_of_string "RSA PRIVATE KEY") as Hty
    by (intros Hd; vm_compute in Hd; not_elem_absurd Hd).
  assert (der ≠ []) as Hder by discriminate.
  split_and!; [done|done|].
  by apply (ParseUserCSR_any_block_type (H := exampleExtern) req "RSA PRIVATE KEY" der).
Defined.

Lemma ParseUserCSR_csr_entry_only_witness :
  let req1 := exampleRequest (Some {["csr" := VString exampleCSR]}) in
  let req2 := setParsedCSR (H := exampleExtern) (Some [x30; x00])
                (exampleRequest (Some {["csr" := VString exampleCSR; "ttl" := VString "1h"]})) in
  mapIndex (UserRequestKV req1) "csr" = mapIndex (UserRequestKV req2) "csr"
  ∧ (ParseUserCSR req1).2 = (ParseUserCSR req2).2.
Proof.
  intros req1 req2.
  assert (mapIndex (UserRequestKV req1) "csr" = mapIndex (UserRequestKV req2) "csr")
    as Heq by (vm_compute; reflexivity).
  split; [done|].
  by apply (ParseUserCSR_csr_entry_only (H := exampleExtern) req1 req2).
Defined.

Lemma ParseUserCSR_leading_text_witness :
  let der := [x30; x03; x02; x01; x00] in
  let pre := bytes_of_string "Subject: CN=example.com" in
  let s := string_of_bytes
             ((pre ++ [x0a])
              ++ pem.EncodeToMemory {| pem.Type_ := "CERTIFICATE REQUEST"; pem.Headers := ∅;
                                       pem.Bytes := der |}) in
  let req := exampleRequest (Some {["csr" := VString s]}) in
  Forall (λ c, c ≠ x2d) pre
  ∧ (x0a ∉ bytes_of_string "CERTIFICATE REQUEST")
  ∧ der ≠ []
  ∧ ParseUserCSR req = (setParsedCSR (H := exampleExtern) (Some der) req, None).
Proof.
  intros der pre s req.
  assert (Forall (λ c, c ≠ x2d) pre) as Hpre by (by vm_compute; repeat constructor).
  assert (x0a ∉ bytes_of_string "CERTIFICATE REQUEST") as Hty
    by (intros Hd; vm_compute in Hd; not_elem_absurd Hd).
  assert (der ≠ []) as Hder by discriminate.
  split_and!; [done|done|done|].
  by apply (ParseUserCSR_leading_text (H := exampleExtern) req pre "CERTIFICATE REQUEST" der).
Defined.

Lemma ParseUserCSR_appended_bytes_witness :
  let der := [x30; x03; x02; x01; x00] in
  let extra := [x0a] in
  let s := string_of_bytes
             (pem.EncodeToMemory {| pem.Type_ := "CERTIFICATE REQUEST"; pem.Headers := ∅;
                                    pem.Bytes := der |} ++ extra) in
  let req := exampleRequest (Some {["csr" := VString s]}) in
  (x0a ∉ bytes_of_string "CERTIFICATE REQUEST")
  ∧ der ≠ [] ∧ extra ≠ []
  ∧ ParseUserCSR req
    = (req, Some "failed to decode 'csr': 1 bytes of trailing data after PEM block").
Proof.
  intros der extra s req.
  assert (x0a ∉ bytes_of_string "CERTIFICATE REQUEST") as Hty
    by (intros Hd; vm_compute in Hd; not_elem_absurd Hd).
  assert (der ≠ []) as Hder by discriminate.
  assert (extra ≠ []) as Hextra by discriminate.
  split_and!; [done|done|done|].
  destruct (ParseUserCSR_appended_bytes (H := exampleExtern) req "CERTIFICATE REQUEST"
              der extra Hty Hder Hextra eq_refl) as (d & Hd & ->).
  apply decimal_numeral in Hd. subst d. reflexivity.
Defined.

Lemma MarshalCertificate_injective_witness :
  let c1 := exampleResponse (Some [x30; x00]) true in
  let c2 := exampleResponse (Some [x30; x01; x00]) false in
  ParsedCertificate c1 = Some [x30; x00]
  ∧ ParsedCertificate c2 = Some [x30; x01; x00]
  ∧ Certificate (MarshalCertificate c1).1 ≠ Certificate (MarshalCertificate c2).1.
Proof.
  intros c1 c2. split_and!; [done|done|].
  intros Heq.
  apply (MarshalCertificate_injective (H := exampleExtern) c1 c2 [x30; x00] [x30; x01; x00])
    in Heq; done.
Defined.

Lemma MarshalCertificate_then_ParseUserCSR_witness :
  let der := [x30; x03; x02; x01; x00] in
  let c := exampleResponse (Some der) true in
  let req := exampleRequest
               (Some {["csr" := VString (Certificate (MarshalCertificate c).1)]}) in
  ParsedCertificate c = Some der
  ∧ Raw (GoExtern := exampleExtern) der ≠ []
  ∧ ParseUserCSR req = (setParsedCSR (H := exampleExtern) (Some der) req, None).
Proof.
  intros der c req.
  assert (ParsedCertificate c = Some der) as Hc by reflexivity.
  assert (Raw (GoExtern := exampleExtern) der ≠ []) as Hraw by discriminate.
  split_and!; [done|done|].
  by apply (MarshalCertificate_then_ParseUserCSR (H := exampleExtern) c der req Hc Hraw).
Defined.

Lemma MarshalCertificate_text_witness :
  let c := exampleResponse (Some [x30; x03; x02; x01; x00]) true in
  (MarshalCertificate c).2 = None
  ∧ Forall (λ n, n ≤ 64)
      (lineLengths 0 (bytes_of_string (Certificate (MarshalCertificate c).1))).
Proof.
  intros c.
  assert ((MarshalCertificate c).2 = None) as Hok by reflexivity.
  split; [done|].
  apply (MarshalCertificate_text (H := exampleExtern) c Hok).
Defined.
